(** * Adhyatmik Hisab: the persistence layer of [src/db/index.ts]

    A shallow embedding of the Dexie-backed store (categories, habits,
    log entries, settings), of its mutation and query functions, of the
    version-2 upgrade step and of the export/import pair, followed by the
    properties of that code.

    Conventions of the embedding:
    - a table is a finite map from primary key to stored record;
    - [new Date()] and [generateId()] are read from the environment: every
      operation takes the clock reading [now] and, where it generates an
      identifier, the generated string [fresh];
    - a rejected promise is the [Throw] outcome, and the store it comes
      with is the store as committed;
    - JS numbers used for display order are integers ([Z]);
    - strings are compared character code by character code
      ([String.le]), as index keys and [<=] on strings are. *)

From stdpp Require Import gmap strings list sorting fin_maps pretty.

Local Open Scope Z_scope.
Local Open Scope string_scope.

(* ===================================================================== *)
(** ** src/types/index.ts *)
(* ===================================================================== *)

Definition SHUBH_HISAB_ID : string := "shubh-hisab".
Definition ASHUBH_HISAB_ID : string := "ashubh-hisab".

Inductive HisabType := shubh | ashubh.
Inductive HabitType := boolean | rating | time | count.
Inductive TrackingInterval := daily | weekly | monthly.

(** Milliseconds since the epoch, the payload of a JS [Date]. *)
Definition Date := Z.

(** A property of a stored JS object that the code tests with [in]:
    missing, present with value [undefined], or present with a value. *)
Inductive field (A : Type) :=
  | Absent
  | Undefined
  | Present (a : A).
Arguments Absent {A}.
Arguments Undefined {A}.
Arguments Present {A} a.

(** [value: boolean | string | number] *)
Inductive LogValue :=
  | VBool (b : bool)
  | VStr (s : string)
  | VNum (n : Z).

(** [hisabType] is optional here because records written under schema
    version 1 do not carry it. *)
Module Category.
Record t := mk {
  id : string;
  name : string;
  nameHindi : option string;
  color : string;
  icon : string;
  order : Z;
  isFixed : bool;
  hisabType : option HisabType;
  createdAt : Date
}.
Definition set_order (o : Z) (c : t) : t :=
  mk (id c) (name c) (nameHindi c) (color c) (icon c) o (isFixed c)
     (hisabType c) (createdAt c).
Definition set_createdAt (d : Date) (c : t) : t :=
  mk (id c) (name c) (nameHindi c) (color c) (icon c) (order c) (isFixed c)
     (hisabType c) d.
Definition set_hisabType (h : option HisabType) (c : t) : t :=
  mk (id c) (name c) (nameHindi c) (color c) (icon c) (order c) (isFixed c)
     h (createdAt c).
End Category.

(** [interval] and [reminderEnabled] are optional for the same reason;
    [trackingDay], [trackingDate] and [reminderTime] are the three optional
    properties the upgrade step probes with [in]. *)
Module Habit.
Record t := mk {
  id : string;
  name : string;
  description : option string;
  image : option string;
  categoryId : string;
  type : HabitType;
  options : option (list string);
  unit : option string;
  target : option Z;
  interval : option TrackingInterval;
  trackingDay : field Z;
  trackingDate : field Z;
  reminderEnabled : option bool;
  reminderTime : field string;
  order : Z;
  isActive : bool;
  createdAt : Date
}.
Definition set_order (o : Z) (h : t) : t :=
  mk (id h) (name h) (description h) (image h) (categoryId h) (type h)
     (options h) (unit h) (target h) (interval h) (trackingDay h)
     (trackingDate h) (reminderEnabled h) (reminderTime h) o (isActive h)
     (createdAt h).
Definition set_categoryId (c : string) (h : t) : t :=
  mk (id h) (name h) (description h) (image h) c (type h)
     (options h) (unit h) (target h) (interval h) (trackingDay h)
     (trackingDate h) (reminderEnabled h) (reminderTime h) (order h)
     (isActive h) (createdAt h).
Definition set_createdAt (d : Date) (h : t) : t :=
  mk (id h) (name h) (description h) (image h) (categoryId h) (type h)
     (options h) (unit h) (target h) (interval h) (trackingDay h)
     (trackingDate h) (reminderEnabled h) (reminderTime h) (order h)
     (isActive h) d.
End Habit.

Module LogEntry.
Record t := mk {
  id : string;
  habitId : string;
  date : string;
  value : LogValue;
  note : option string;
  skippedReason : option string;
  createdAt : Date;
  updatedAt : Date
}.
Definition set_createdAt (d : Date) (e : t) : t :=
  mk (id e) (habitId e) (date e) (value e) (note e) (skippedReason e)
     d (updatedAt e).
Definition set_updatedAt (d : Date) (e : t) : t :=
  mk (id e) (habitId e) (date e) (value e) (note e) (skippedReason e)
     (createdAt e) d.
Definition set_value (v : LogValue) (e : t) : t :=
  mk (id e) (habitId e) (date e) v (note e) (skippedReason e)
     (createdAt e) (updatedAt e).
Definition set_note (n : option string) (e : t) : t :=
  mk (id e) (habitId e) (date e) (value e) n (skippedReason e)
     (createdAt e) (updatedAt e).
Definition set_skippedReason (r : option string) (e : t) : t :=
  mk (id e) (habitId e) (date e) (value e) (note e) r
     (createdAt e) (updatedAt e).
End LogEntry.

(** A row of the [settings] table, [{ key: string; value: unknown }]. *)
Inductive SettingValue :=
  | SBool (b : bool)
  | SStr (s : string)
  | SNum (n : Z)
  | SNull.

Module Setting.
Record t := mk { key : string; value : SettingValue }.
End Setting.

(* ===================================================================== *)
(** ** Outcomes of the asynchronous operations *)
(* ===================================================================== *)

Inductive Error :=
  | ConstraintError          (* [Table.add] on a primary key in use *)
  | CannotDeleteFixedCategory (* [new Error('Cannot delete fixed category')] *)
  | TypeError                (* reading [.length] of [undefined] *)
  | VersionError.            (* stored version newer than the declared one *)

Inductive outcome (A : Type) :=
  | Ok (a : A)
  | Throw (e : Error).
Arguments Ok {A} a.
Arguments Throw {A} e.

(* ===================================================================== *)
(** ** The Dexie table primitives the source calls *)
(* ===================================================================== *)

(** What [version(n).stores] and [hook] fix for one table: the inbound
    primary key, and the [creating] and [updating] hooks. *)
Record Schema (R : Type) := {
  pk : R → string;
  creating : Date → R → R;
  updating : Date → R → R
}.
Arguments pk {R} _ _.
Arguments creating {R} _ _ _.
Arguments updating {R} _ _ _.

Section Table.
Context {R : Type} (S : Schema R).

(** The object store proper: a record is filed under its own key. *)
Definition store (r : R) (t : gmap string R) : gmap string R :=
  <[pk S r := r]> t.

Definition get (k : string) (t : gmap string R) : option R := t !! k.

(** [Table.add]: rejected when the key is taken, otherwise the
    [creating] hook runs on the object before it is stored. *)
Definition add (now : Date) (r : R) (t : gmap string R)
  : option (gmap string R) :=
  match t !! pk S r with
  | Some _ => None
  | None => Some (store (creating S now r) t)
  end.

(** [Table.put]: a creation fires [creating], a replacement fires
    [updating]. *)
Definition put (now : Date) (r : R) (t : gmap string R) : gmap string R :=
  match t !! pk S r with
  | Some _ => store (updating S now r) t
  | None => store (creating S now r) t
  end.

(** [Table.bulkPut]: the existing values are fetched once, before the
    request is executed. *)
Definition bulkPut (now : Date) (rs : list R) (t : gmap string R)
  : gmap string R :=
  foldl (λ acc r,
           match t !! pk S r with
           | Some _ => store (updating S now r) acc
           | None => store (creating S now r) acc
           end) t rs.

(** [Table.update(key, changes)]: no effect when the key is absent. *)
Definition update (now : Date) (k : string) (changes : R → R)
    (t : gmap string R) : gmap string R :=
  match t !! k with
  | Some r => <[k := updating S now (changes r)]> t
  | None => t
  end.

(** [where(ix).equals(v).modify(changes)] and
    [toCollection().modify(changes)] (with [sel] always true). *)
Definition modify (now : Date) (sel : R → bool) (changes : R → R)
    (t : gmap string R) : gmap string R :=
  (λ r, if sel r then updating S now (changes r) else r) <$> t.

Definition clear (t : gmap string R) : gmap string R := ∅.

(** [toArray()] on the table: primary-key order. *)
Definition toArray (t : gmap string R) : list R :=
  (merge_sort (λ x y : string * R, String.le x.1 y.1) (map_to_list t)).*2.

(** [where(ix).equals(v)]: all matches share the index key, so they come
    in primary-key order. *)
Definition where_equals (sel : R → bool) (t : gmap string R) : list R :=
  filter (λ r, sel r = true) (toArray t).

(** Every stored record sits under its own primary key. *)
Definition wf_table (t : gmap string R) : Prop :=
  map_Forall (λ k r, pk S r = k) t.
End Table.

(** [orderBy(ix)] / [where(ix)]: index-key order, ties in primary-key
    order. [ile] is the order of the index keys. *)
Definition index_le {R I : Type} (ile : relation I) (ix : R → I)
    (x y : string * R) : Prop :=
  ile (ix x.2) (ix y.2) ∧ (ile (ix y.2) (ix x.2) → String.le x.1 y.1).

Global Instance index_le_dec {R I : Type} (ile : relation I)
    `{!RelDecision ile} (ix : R → I) : RelDecision (index_le ile ix).
Proof. intros x y. unfold index_le. apply _. Defined.

Definition orderBy {R I : Type} (ile : relation I) `{!RelDecision ile}
    (ix : R → I) (t : gmap string R) : list R :=
  (merge_sort (index_le ile ix) (map_to_list t)).*2.

(* ===================================================================== *)
(** ** src/db/index.ts: the database *)
(* ===================================================================== *)

Definition CURRENT_DB_VERSION : nat := 2.
Definition CURRENT_APP_VERSION : string := "1.0.0".

(** The hooks installed by the constructor of [AdhyatmikDatabase]. *)
Definition categoriesSchema : Schema Category.t :=
  {| pk := Category.id;
     creating := Category.set_createdAt;
     updating := λ _ c, c |}.

Definition habitsSchema : Schema Habit.t :=
  {| pk := Habit.id;
     creating := Habit.set_createdAt;
     updating := λ _ h, h |}.

Definition logEntriesSchema : Schema LogEntry.t :=
  {| pk := LogEntry.id;
     creating := λ now e,
       LogEntry.set_updatedAt now (LogEntry.set_createdAt now e);
     updating := LogEntry.set_updatedAt |}.

Definition settingsSchema : Schema Setting.t :=
  {| pk := Setting.key;
     creating := λ _ s, s;
     updating := λ _ s, s |}.

(** The four tables and the schema version recorded in the store
    ([0]: nothing stored yet). *)
Record DB := mkDB {
  categories : gmap string Category.t;
  habits : gmap string Habit.t;
  logEntries : gmap string LogEntry.t;
  settings : gmap string Setting.t;
  verno : nat
}.

Definition set_categories (t : gmap string Category.t) (db : DB) : DB :=
  mkDB t (habits db) (logEntries db) (settings db) (verno db).
Definition set_habits (t : gmap string Habit.t) (db : DB) : DB :=
  mkDB (categories db) t (logEntries db) (settings db) (verno db).
Definition set_logEntries (t : gmap string LogEntry.t) (db : DB) : DB :=
  mkDB (categories db) (habits db) t (settings db) (verno db).
Definition set_settings (t : gmap string Setting.t) (db : DB) : DB :=
  mkDB (categories db) (habits db) (logEntries db) t (verno db).

Definition emptyDB : DB := mkDB ∅ ∅ ∅ ∅ 0.

(* --------------------------------------------------------------------- *)
(** *** Log entry operations *)
(* --------------------------------------------------------------------- *)

Definition same_pair (habitId date : string) (e : LogEntry.t) : bool :=
  bool_decide (LogEntry.habitId e = habitId ∧ LogEntry.date e = date).

(** [db.logEntries.where('[habitId+date]').equals([habitId, date])] *)
Definition where_habitId_date (habitId date : string)
    (t : gmap string LogEntry.t) : list LogEntry.t :=
  where_equals (same_pair habitId date) t.

Definition logHabit (now : Date) (fresh : string)
    (habitId date : string) (value : LogValue) (note : option string)
    (db : DB) : outcome string * DB :=
  match head (where_habitId_date habitId date (logEntries db)) with
  | Some existing =>
      (Ok (LogEntry.id existing),
       set_logEntries
         (update logEntriesSchema now (LogEntry.id existing)
            (λ e, LogEntry.set_updatedAt now
                    (LogEntry.set_note note (LogEntry.set_value value e)))
            (logEntries db)) db)
  | None =>
      match add logEntriesSchema now
              (LogEntry.mk fresh habitId date value note None now now)
              (logEntries db) with
      | Some t => (Ok fresh, set_logEntries t db)
      | None => (Throw ConstraintError, db)
      end
  end.

Definition skipHabit (now : Date) (fresh : string)
    (habitId date reason : string) (db : DB) : outcome string * DB :=
  match head (where_habitId_date habitId date (logEntries db)) with
  | Some existing =>
      (Ok (LogEntry.id existing),
       set_logEntries
         (update logEntriesSchema now (LogEntry.id existing)
            (λ e, LogEntry.set_updatedAt now
                    (LogEntry.set_skippedReason (Some reason) e))
            (logEntries db)) db)
  | None =>
      match add logEntriesSchema now
              (LogEntry.mk fresh habitId date (VBool false) None (Some reason)
                 now now)
              (logEntries db) with
      | Some t => (Ok fresh, set_logEntries t db)
      | None => (Throw ConstraintError, db)
      end
  end.

(** [db.logEntries.where('date').between(startDate, endDate, true, true)]:
    Dexie answers with the empty collection when the lower bound is above
    the upper one, and with the inclusive key range otherwise. *)
Definition getLogEntriesInRange (startDate endDate : string) (db : DB)
    : list LogEntry.t :=
  if decide (String.le startDate endDate) then
    filter (λ e, String.le startDate (LogEntry.date e)
                 ∧ String.le (LogEntry.date e) endDate)
           (orderBy String.le LogEntry.date (logEntries db))
  else [].

(* --------------------------------------------------------------------- *)
(** *** Seeding *)
(* --------------------------------------------------------------------- *)

Definition shubhCategory (now : Date) : Category.t :=
  Category.mk SHUBH_HISAB_ID "Shubh Hisab" (Some "शुभ हिसाब") "#3A9173" "🙏"
    0 true (Some shubh) now.

Definition ashubhCategory (now : Date) : Category.t :=
  Category.mk ASHUBH_HISAB_ID "Ashubh Hisab" (Some "अशुभ हिसाब") "#DC2626" "⚠️"
    1 true (Some ashubh) now.

Definition seedDefaultCategories (now : Date) (db : DB) : outcome () * DB :=
  let shubhExists := get SHUBH_HISAB_ID (categories db) in
  let ashubhExists := get ASHUBH_HISAB_ID (categories db) in
  match shubhExists, ashubhExists with
  | Some _, Some _ => (Ok (), db)
  | _, _ =>
      let t1 := match shubhExists with
                | None => put categoriesSchema now (shubhCategory now)
                            (categories db)
                | Some _ => categories db
                end in
      let t2 := match ashubhExists with
                | None => put categoriesSchema now (ashubhCategory now) t1
                | Some _ => t1
                end in
      (Ok (),
       set_settings
         (put settingsSchema now
            (Setting.mk "hasSeededCategories" (SBool true)) (settings db))
         (set_categories t2 db))
  end.

(* --------------------------------------------------------------------- *)
(** *** Category operations *)
(* --------------------------------------------------------------------- *)

(** [Omit<Category, 'id' | 'createdAt' | 'order' | 'isFixed'>] *)
Module CategoryData.
Record t := mk {
  name : string;
  nameHindi : option string;
  color : string;
  icon : string;
  hisabType : HisabType
}.
End CategoryData.

(** [Partial<Category>] without the primary key: [None] leaves the
    property alone. *)
Module CategoryPatch.
Record t := mk {
  name : option string;
  nameHindi : option (option string);
  color : option string;
  icon : option string;
  order : option Z;
  isFixed : option bool;
  hisabType : option HisabType;
  createdAt : option Date
}.
Definition apply (p : t) (c : Category.t) : Category.t :=
  Category.mk (Category.id c)
    (default (Category.name c) (name p))
    (default (Category.nameHindi c) (nameHindi p))
    (default (Category.color c) (color p))
    (default (Category.icon c) (icon p))
    (default (Category.order c) (order p))
    (default (Category.isFixed c) (isFixed p))
    (match hisabType p with
     | Some h => Some h
     | None => Category.hisabType c
     end)
    (default (Category.createdAt c) (createdAt p)).
End CategoryPatch.

Definition createCategory (now : Date) (fresh : string)
    (data : CategoryData.t) (db : DB) : outcome string * DB :=
  let maxOrder := last (orderBy Z.le Category.order (categories db)) in
  let order := match maxOrder with
               | Some m => Category.order m + 1
               | None => 0
               end in
  match add categoriesSchema now
          (Category.mk fresh (CategoryData.name data)
             (CategoryData.nameHindi data) (CategoryData.color data)
             (CategoryData.icon data) order false
             (Some (CategoryData.hisabType data)) now)
          (categories db) with
  | Some t => (Ok fresh, set_categories t db)
  | None => (Throw ConstraintError, db)
  end.

Definition updateCategory (now : Date) (id : string)
    (data : CategoryPatch.t) (db : DB) : outcome () * DB :=
  (Ok (),
   set_categories
     (update categoriesSchema now id (CategoryPatch.apply data)
        (categories db)) db).

(** The two awaited statements of [deleteCategory]; neither is inside a
    [db.transaction], so each one commits by itself. *)
Definition deleteCategory_reassign (now : Date) (id : string) (db : DB) : DB :=
  set_habits
    (modify habitsSchema now
       (λ h, bool_decide (Habit.categoryId h = id))
       (Habit.set_categoryId SHUBH_HISAB_ID) (habits db)) db.

Definition deleteCategory_delete (id : string) (db : DB) : DB :=
  set_categories (delete id (categories db)) db.

(** [deleteCategory] together with the store states it commits, oldest
    first. *)
Definition deleteCategory_commits (now : Date) (id : string) (db : DB)
    : outcome () * list DB :=
  let category := get id (categories db) in
  if match category with Some c => Category.isFixed c | None => false end
  then (Throw CannotDeleteFixedCategory, [])
  else
    let db1 := deleteCategory_reassign now id db in
    let db2 := deleteCategory_delete id db1 in
    (Ok (), [db1; db2]).

(** [deleteCategory] as seen once its promise has settled. *)
Definition deleteCategory (now : Date) (id : string) (db : DB)
    : outcome () * DB :=
  let '(r, commits) := deleteCategory_commits now id db in
  (r, default db (last commits)).

Fixpoint reorder_from {R : Type} (S : Schema R) (set_order : Z → R → R)
    (now : Date) (i : nat) (orderedIds : list string) (t : gmap string R)
    : gmap string R :=
  match orderedIds with
  | [] => t
  | k :: rest =>
      reorder_from S set_order now (Datatypes.S i) rest
        (update S now k (set_order (Z.of_nat i)) t)
  end.

Definition reorderCategories (now : Date) (orderedIds : list string)
    (db : DB) : outcome () * DB :=
  (Ok (),
   set_categories
     (reorder_from categoriesSchema Category.set_order now 0 orderedIds
        (categories db)) db).

(* --------------------------------------------------------------------- *)
(** *** Habit operations *)
(* --------------------------------------------------------------------- *)

(** [Omit<Habit, 'id' | 'createdAt' | 'order' | 'isActive'>] *)
Module HabitData.
Record t := mk {
  name : string;
  description : option string;
  image : option string;
  categoryId : string;
  type : HabitType;
  options : option (list string);
  unit : option string;
  target : option Z;
  interval : TrackingInterval;
  trackingDay : field Z;
  trackingDate : field Z;
  reminderEnabled : bool;
  reminderTime : field string
}.
End HabitData.

Definition createHabit (now : Date) (fresh : string) (data : HabitData.t)
    (db : DB) : outcome string * DB :=
  let maxOrder :=
    last (filter (λ h, Habit.isActive h = true)
            (where_equals
               (λ h, bool_decide (Habit.categoryId h = HabitData.categoryId data))
               (habits db))) in
  let order := match maxOrder with
               | Some m => Habit.order m + 1
               | None => 0
               end in
  match add habitsSchema now
          (Habit.mk fresh (HabitData.name data) (HabitData.description data)
             (HabitData.image data) (HabitData.categoryId data)
             (HabitData.type data) (HabitData.options data)
             (HabitData.unit data) (HabitData.target data)
             (Some (HabitData.interval data)) (HabitData.trackingDay data)
             (HabitData.trackingDate data)
             (Some (HabitData.reminderEnabled data))
             (HabitData.reminderTime data) order true now)
          (habits db) with
  | Some t => (Ok fresh, set_habits t db)
  | None => (Throw ConstraintError, db)
  end.

Definition reorderHabits (now : Date) (_categoryId : string)
    (orderedIds : list string) (db : DB) : outcome () * DB :=
  (Ok (),
   set_habits
     (reorder_from habitsSchema Habit.set_order now 0 orderedIds (habits db))
     db).

(** One transaction over [habits] and [logEntries]: a single commit. *)
Definition deleteHabit (id : string) (deleteEntries : bool) (db : DB)
    : outcome () * DB :=
  let logs :=
    if deleteEntries
    then filter (λ kv : string * LogEntry.t, LogEntry.habitId kv.2 ≠ id)
           (logEntries db)
    else logEntries db in
  (Ok (), set_habits (delete id (habits db)) (set_logEntries logs db)).

(* --------------------------------------------------------------------- *)
(** *** Schema version 2: the upgrade step and opening the store *)
(* --------------------------------------------------------------------- *)

(** The callback given to [tx.table('categories').toCollection().modify]. *)
Definition upgradeCategory (category : Category.t) : Category.t :=
  match Category.hisabType category with
  | None => Category.set_hisabType (Some shubh) category
  | Some _ => category
  end.

(** The callback given to [tx.table('habits').toCollection().modify]. *)
Definition upgradeHabit (habit : Habit.t) : Habit.t :=
  Habit.mk (Habit.id habit) (Habit.name habit) (Habit.description habit)
    (Habit.image habit) (Habit.categoryId habit) (Habit.type habit)
    (Habit.options habit) (Habit.unit habit) (Habit.target habit)
    (match Habit.interval habit with
     | None => Some daily
     | Some i => Some i
     end)
    (match Habit.trackingDay habit with
     | Absent => Undefined
     | f => f
     end)
    (match Habit.trackingDate habit with
     | Absent => Undefined
     | f => f
     end)
    (match Habit.reminderEnabled habit with
     | None => Some false
     | Some b => Some b
     end)
    (match Habit.reminderTime habit with
     | Absent => Undefined
     | f => f
     end)
    (Habit.order habit) (Habit.isActive habit) (Habit.createdAt habit).

(** [version(2).stores(...).upgrade(async (tx) => ...)] *)
Definition upgrade_v2 (now : Date) (db : DB) : DB :=
  set_habits
    (modify habitsSchema now (λ _, true) upgradeHabit (habits db))
    (set_categories
       (modify categoriesSchema now (λ _, true) upgradeCategory
          (categories db)) db).

Definition set_verno (v : nat) (db : DB) : DB :=
  mkDB (categories db) (habits db) (logEntries db) (settings db) v.

(** Opening the store with the two declared versions: nothing stored yet
    creates the version-2 stores without running an upgrader; a version-1
    store runs the version-2 upgrader; a store from a later build is
    refused. *)
Definition open (now : Date) (db : DB) : outcome DB :=
  match verno db with
  | 0%nat => Ok (set_verno CURRENT_DB_VERSION db)
  | 1%nat => Ok (set_verno CURRENT_DB_VERSION (upgrade_v2 now db))
  | 2%nat => Ok db
  | _ => Throw VersionError
  end.

(* --------------------------------------------------------------------- *)
(** *** Data export / import *)
(* --------------------------------------------------------------------- *)

(** [ExportData] as it arrives from a parsed backup file: any top-level
    property may be missing. [exportedAt] holds the instant whose ISO
    rendering the source stores. *)
Module ExportData.
Record t := mk {
  version : option string;
  schemaVersion : option nat;
  exportedAt : option Date;
  categories : option (list Category.t);
  habits : option (list Habit.t);
  logEntries : option (list LogEntry.t);
  settings : option (list Setting.t)
}.
End ExportData.

Definition exportAllData (now : Date) (db : DB) : ExportData.t :=
  ExportData.mk (Some CURRENT_APP_VERSION) (Some CURRENT_DB_VERSION)
    (Some now)
    (Some (toArray (categories db)))
    (Some (toArray (habits db)))
    (Some (toArray (logEntries db)))
    (Some (toArray (settings db))).

(** [data.schemaVersion || 1] *)
Definition importedSchemaVersion (data : ExportData.t) : nat :=
  match ExportData.schemaVersion data with
  | Some (Datatypes.S n) => Datatypes.S n
  | _ => 1%nat
  end.

(** The only thing [importAllData] does with the snapshot's version: the
    [console.warn] branch. *)
Definition importWarns (data : ExportData.t) : bool :=
  bool_decide (importedSchemaVersion data < CURRENT_DB_VERSION)%nat.

(** The whole body runs in one read-write transaction over the four
    tables: [bulkPut(undefined)] rejects, which aborts the transaction and
    restores the store. *)
Definition importAllData (now : Date) (data : ExportData.t) (db : DB)
    : outcome () * DB :=
  let cleared :=
    mkDB (clear (categories db)) (clear (habits db)) (clear (logEntries db))
         (clear (settings db)) (verno db) in
  match ExportData.categories data, ExportData.habits data,
        ExportData.logEntries data, ExportData.settings data with
  | Some cs, Some hs, Some ls, Some ss =>
      let loaded :=
        mkDB (bulkPut categoriesSchema now cs (categories cleared))
             (bulkPut habitsSchema now hs (habits cleared))
             (bulkPut logEntriesSchema now ls (logEntries cleared))
             (bulkPut settingsSchema now ss (settings cleared))
             (verno cleared) in
      seedDefaultCategories now loaded
  | _, _, _, _ => (Throw TypeError, db)
  end.

(* --------------------------------------------------------------------- *)
(** *** Sequences of calls *)
(* --------------------------------------------------------------------- *)

(** A call of the logging API together with what the environment hands it. *)
Inductive LogCall :=
  | CallLogHabit (now : Date) (fresh : string)
      (habitId date : string) (value : LogValue) (note : option string)
  | CallSkipHabit (now : Date) (fresh : string)
      (habitId date reason : string).

Definition call_pair (c : LogCall) : string * string :=
  match c with
  | CallLogHabit _ _ h d _ _ => (h, d)
  | CallSkipHabit _ _ h d _ => (h, d)
  end.

Definition exec_log (c : LogCall) (db : DB) : outcome string * DB :=
  match c with
  | CallLogHabit now fresh h d v n => logHabit now fresh h d v n db
  | CallSkipHabit now fresh h d r => skipHabit now fresh h d r db
  end.

(** The calls are awaited one after the other; a rejected call leaves the
    store as it was. *)
Fixpoint run_log (cs : list LogCall) (db : DB)
    : list (outcome string) * DB :=
  match cs with
  | [] => ([], db)
  | c :: cs' =>
      let '(r, db1) := exec_log c db in
      let '(rs, db2) := run_log cs' db1 in
      (r :: rs, db2)
  end.

Inductive CategoryCall :=
  | CallCreateCategory (now : Date) (fresh : string) (data : CategoryData.t)
  | CallUpdateCategory (now : Date) (id : string) (data : CategoryPatch.t)
  | CallDeleteCategory (now : Date) (id : string)
  | CallReorderCategories (now : Date) (orderedIds : list string).

Definition exec_category (c : CategoryCall) (db : DB) : DB :=
  match c with
  | CallCreateCategory now fresh data => (createCategory now fresh data db).2
  | CallUpdateCategory now id data => (updateCategory now id data db).2
  | CallDeleteCategory now id => (deleteCategory now id db).2
  | CallReorderCategories now ids => (reorderCategories now ids db).2
  end.

Definition run_category (cs : list CategoryCall) (db : DB) : DB :=
  foldl (λ acc c, exec_category c acc) db cs.

(* --------------------------------------------------------------------- *)
(** *** Predicates used by the statements *)
(* --------------------------------------------------------------------- *)

(** The rows of [categories] whose [isFixed] flag is set. *)
Definition fixedCategories (db : DB) : gmap string Category.t :=
  filter (λ kv : string * Category.t, Category.isFixed kv.2 = true)
         (categories db).

(** Exactly two fixed categories, under the reserved identifiers, one per
    group tag. *)
Definition fixed_pair (db : DB) : Prop :=
  dom (fixedCategories db) = ({[SHUBH_HISAB_ID; ASHUBH_HISAB_ID]} : gset string)
  ∧ size (fixedCategories db) = 2%nat
  ∧ Category.hisabType <$> (categories db !! SHUBH_HISAB_ID) = Some (Some shubh)
  ∧ Category.hisabType <$> (categories db !! ASHUBH_HISAB_ID) = Some (Some ashubh).

(** A patch that leaves the fixed flag and the group tag alone. *)
Definition keeps_fixed (c : CategoryCall) : Prop :=
  match c with
  | CallUpdateCategory _ _ p =>
      CategoryPatch.isFixed p = None ∧ CategoryPatch.hisabType p = None
  | _ => True
  end.

(** The stored log entries respect the natural key: every row sits under
    its identifier and no two rows share [(habitId, date)]. *)
Definition log_inv (db : DB) : Prop :=
  wf_table logEntriesSchema (logEntries db)
  ∧ ∀ k1 k2 e1 e2,
      logEntries db !! k1 = Some e1 → logEntries db !! k2 = Some e2 →
      LogEntry.habitId e1 = LogEntry.habitId e2 →
      LogEntry.date e1 = LogEntry.date e2 → k1 = k2.

(** The query behind [useLogEntry(habitId, date)]. *)
Definition getLogEntry (habitId date : string) (db : DB) : option LogEntry.t :=
  head (where_habitId_date habitId date (logEntries db)).

(** The store holding exactly the given rows, filed one after the other. *)
Definition stored (es : list LogEntry.t) : DB :=
  set_logEntries (foldl (λ t e, store logEntriesSchema e t) ∅ es) emptyDB.

(* --------------------------------------------------------------------- *)
(** *** Sample stores and calls, used to instantiate the statements *)
(* --------------------------------------------------------------------- *)

Definition sample_log_calls : list LogCall :=
  [ CallLogHabit 1 "e1" "h1" "2026-01-05" (VBool true) None;
    CallSkipHabit 2 "e2" "h1" "2026-01-05" "travelling";
    CallLogHabit 3 "e3" "h1" "2026-01-06" (VNum 108) (Some "extra round");
    CallLogHabit 4 "e4" "h1" "2026-01-05" (VBool false) None ].

Definition sample_entry (id date : string) (v : LogValue) : LogEntry.t :=
  LogEntry.mk id "h1" date v (Some "morning") None 100 100.

Definition sample_entries : list LogEntry.t :=
  [ sample_entry "e1" "2026-01-05" (VNum 30);
    sample_entry "e2" "2026-01-07" (VNum 45);
    sample_entry "e3" "2026-01-09" (VNum 20) ].

Definition sample_entries_shuffled : list LogEntry.t :=
  [ sample_entry "e3" "2026-01-09" (VNum 20);
    sample_entry "e1" "2026-01-05" (VNum 30);
    sample_entry "e2" "2026-01-07" (VNum 45) ].


(** A habit as schema version 1 stored it: no [interval], no
    [reminderEnabled], none of the tracking properties. *)
Definition sample_v1_habit : Habit.t :=
  Habit.mk "h1" "Mala" (Some "108 beads") None "c1" count None
    (Some "times") (Some 108) None Absent Absent None Absent 0 true 100.

Definition sample_v1_category : Category.t :=
  Category.mk "c1" "Sadhana" None "#112233" "*" 0 false None 90.

Definition sample_v1_db : DB :=
  mkDB {[ "c1" := sample_v1_category ]} {[ "h1" := sample_v1_habit ]} ∅ ∅ 1.

(** A backup written by a schema-version-1 build. *)
Definition sample_v1_snapshot : ExportData.t :=
  ExportData.mk (Some "0.9.0") (Some 1%nat) (Some 150)
    (Some [sample_v1_category]) (Some [sample_v1_habit]) (Some []) (Some []).

Definition sample_habit_data : HabitData.t :=
  HabitData.mk "Japa" None None SHUBH_HISAB_ID count None None None daily
    Absent Absent false Absent.

(** Two habits created in the positive category, then dragged into the
    opposite order. *)
Definition sample_reordered_db : DB :=
  let db0 := (seedDefaultCategories 1 emptyDB).2 in
  let db1 := (createHabit 10 "h1" sample_habit_data db0).2 in
  let db2 := (createHabit 20 "h2" sample_habit_data db1).2 in
  (reorderHabits 30 SHUBH_HISAB_ID ["h2"; "h1"] db2).2.

(** The largest [order] among the active habits of a category. *)
Definition max_active_order (categoryId : string) (db : DB) : option Z :=
  foldr (λ h acc, match acc with
                  | Some m => Some (Z.max (Habit.order h) m)
                  | None => Some (Habit.order h)
                  end) None
    (filter (λ h, Habit.isActive h = true)
       (where_equals (λ h, bool_decide (Habit.categoryId h = categoryId))
          (habits db))).

(** A seeded store with one user category owning one habit. *)
Definition sample_user_category_db : DB :=
  let db0 := (seedDefaultCategories 1 emptyDB).2 in
  let db1 := (createCategory 2 "c1"
                (CategoryData.mk "Seva" None "#445566" "+" shubh) db0).2 in
  (createHabit 3 "h1"
     (HabitData.mk "Annadan" None None "c1" boolean None None None weekly
        (Present 0) Absent false Absent) db1).2.


(** The fixed-category invariant on the [categories] table: only the two
    reserved keys hold fixed rows, and both hold one, with its group tag. *)
Definition fixed_inv_t (t : gmap string Category.t) : Prop :=
  (∀ k c, t !! k = Some c → Category.isFixed c = true →
          k = SHUBH_HISAB_ID ∨ k = ASHUBH_HISAB_ID)
  ∧ (∃ c, t !! SHUBH_HISAB_ID = Some c ∧ Category.isFixed c = true
          ∧ Category.hisabType c = Some shubh)
  ∧ (∃ c, t !! ASHUBH_HISAB_ID = Some c ∧ Category.isFixed c = true
          ∧ Category.hisabType c = Some ashubh).

(** One step of the category API as far as the fixed rows can tell: rows
    that stay keep flag and tag, rows that come or go are not fixed. *)
Definition flags_step (t t' : gmap string Category.t) : Prop :=
  ∀ k, match t !! k, t' !! k with
       | Some c, Some c' =>
           Category.isFixed c' = Category.isFixed c
           ∧ Category.hisabType c' = Category.hisabType c
       | Some c, None => Category.isFixed c = false
       | None, Some c' => Category.isFixed c' = false
       | None, None => True
       end.

(** A store that has not been seeded: no fixed row, reserved keys free. *)
Definition unseeded (db : DB) : Prop :=
  ∀ k c, categories db !! k = Some c →
         Category.isFixed c = false
         ∧ k ≠ SHUBH_HISAB_ID ∧ k ≠ ASHUBH_HISAB_ID.

Definition sample_category_calls : list CategoryCall :=
  [ CallCreateCategory 2 "c1" (CategoryData.mk "Seva" None "#445566" "+" shubh);
    CallUpdateCategory 3 "c1"
      (CategoryPatch.mk (Some "Seva & Daan") None None None None None None None);
    CallUpdateCategory 4 SHUBH_HISAB_ID
      (CategoryPatch.mk None None (Some "#000000") None None None None None);
    CallReorderCategories 5 ["c1"; ASHUBH_HISAB_ID; SHUBH_HISAB_ID];
    CallDeleteCategory 6 SHUBH_HISAB_ID;
    CallDeleteCategory 7 "c1" ].

(** An update that raises the fixed flag of a user category. *)
Definition sample_flag_calls : list CategoryCall :=
  [ CallCreateCategory 2 "c1" (CategoryData.mk "Seva" None "#445566" "+" shubh);
    CallUpdateCategory 3 "c1"
      (CategoryPatch.mk None None None None None (Some true) None None) ].


(** An opened store with nothing in it. *)
Definition freshDB : DB := mkDB ∅ ∅ ∅ ∅ CURRENT_DB_VERSION.

(** Every table files its rows under their own primary keys. *)
Definition wf_db (db : DB) : Prop :=
  wf_table categoriesSchema (categories db)
  ∧ wf_table habitsSchema (habits db)
  ∧ wf_table logEntriesSchema (logEntries db)
  ∧ wf_table settingsSchema (settings db).

(** A seeded store at the current version with a habit and a log entry. *)
Definition sample_full_db : DB :=
  let db0 := (seedDefaultCategories 1 freshDB).2 in
  let db1 := (createHabit 3 "h1" sample_habit_data db0).2 in
  (logHabit 4 "e1" "h1" "2026-01-05" (VNum 108) None db1).2.

(** The top-level properties of the transfer format. *)
Definition missing_top_level (data : ExportData.t) : Prop :=
  ExportData.version data = None
  ∨ ExportData.schemaVersion data = None
  ∨ ExportData.exportedAt data = None
  ∨ ExportData.categories data = None
  ∨ ExportData.habits data = None
  ∨ ExportData.logEntries data = None
  ∨ ExportData.settings data = None.

(** The four of them [importAllData] hands to [bulkPut]. *)
Definition missing_table (data : ExportData.t) : Prop :=
  ExportData.categories data = None
  ∨ ExportData.habits data = None
  ∨ ExportData.logEntries data = None
  ∨ ExportData.settings data = None.

(** A snapshot with the four arrays and none of the header properties. *)
Definition sample_headerless_snapshot : ExportData.t :=
  ExportData.mk None None None (Some []) (Some []) (Some []) (Some []).

(** A snapshot whose [logEntries] array is missing. *)
Definition sample_truncated_snapshot : ExportData.t :=
  ExportData.mk (Some "1.0.0") (Some 2%nat) (Some 150)
    (Some []) (Some []) None (Some []).


(* --------------------------------------------------------------------- *)
(** *** Settings helpers *)
(* --------------------------------------------------------------------- *)

(** The object literal [DEFAULT_SETTINGS_VALUES] of [src/db/index.ts]; it
    has no [firebaseUserId] and no [hasSignedUp] property. *)
Definition DEFAULT_SETTINGS_VALUES : gmap string SettingValue :=
  list_to_map
    [ ("pinHash", SNull);
      ("pinEnabled", SBool false);
      ("autoLockTimeout", SNum 5);
      ("theme", SStr "system");
      ("startOfWeek", SNum 0);
      ("googleBackupEnabled", SBool false);
      ("lastBackupAt", SNull);
      ("autoBackupEnabled", SBool false);
      ("hasCompletedOnboarding", SBool false);
      ("hasSeededCategories", SBool false);
      ("appVersion", SStr "1.0.0") ].

(** [getSetting(key)]: [None] is [undefined], what indexing the defaults
    gives for a name they do not have. The key ranges over the property
    names of [AppSettings]. *)
Definition getSetting (key : string) (db : DB) : option SettingValue :=
  match get key (settings db) with
  | None => DEFAULT_SETTINGS_VALUES !! key
  | Some record => Some (Setting.value record)
  end.

Definition setSetting (now : Date) (key : string) (value : SettingValue)
    (db : DB) : outcome () * DB :=
  (Ok (),
   set_settings (put settingsSchema now (Setting.mk key value) (settings db))
     db).


(* --------------------------------------------------------------------- *)
(** *** Archiving, enabling and clearing *)
(* --------------------------------------------------------------------- *)

Definition habit_set_isActive (b : bool) (h : Habit.t) : Habit.t :=
  Habit.mk (Habit.id h) (Habit.name h) (Habit.description h) (Habit.image h)
    (Habit.categoryId h) (Habit.type h) (Habit.options h) (Habit.unit h)
    (Habit.target h) (Habit.interval h) (Habit.trackingDay h)
    (Habit.trackingDate h) (Habit.reminderEnabled h) (Habit.reminderTime h)
    (Habit.order h) b (Habit.createdAt h).

Definition archiveHabit (now : Date) (id : string) (db : DB)
    : outcome () * DB :=
  (Ok (),
   set_habits
     (update habitsSchema now id (habit_set_isActive false) (habits db)) db).

Definition disableHabit (now : Date) (id : string) (db : DB)
    : outcome () * DB :=
  (Ok (),
   set_habits
     (update habitsSchema now id (habit_set_isActive false) (habits db)) db).

Definition enableHabit (now : Date) (id : string) (db : DB)
    : outcome () * DB :=
  (Ok (),
   set_habits
     (update habitsSchema now id (habit_set_isActive true) (habits db)) db).

(** [clearAllData]: one transaction clears the four tables, then the
    store is seeded again. *)
Definition clearAllData (now : Date) (db : DB) : outcome () * DB :=
  let cleared :=
    mkDB (clear (categories db)) (clear (habits db)) (clear (logEntries db))
         (clear (settings db)) (verno db) in
  seedDefaultCategories now cleared.

(* --------------------------------------------------------------------- *)
(** *** Further log queries *)
(* --------------------------------------------------------------------- *)

(** [db.logEntries.where('date').equals(date).toArray()] *)
Definition getLogEntriesForDate (date : string) (db : DB) : list LogEntry.t :=
  where_equals (λ e, bool_decide (LogEntry.date e = date)) (logEntries db).

(** Truthiness of an optional string argument: given and not empty. *)
Definition truthy (s : option string) : bool :=
  match s with
  | Some (String _ _) => true
  | _ => false
  end.

Definition getLogEntriesForHabit (habitId : string)
    (startDate endDate : option string) (db : DB) : list LogEntry.t :=
  let query :=
    where_equals (λ e, bool_decide (LogEntry.habitId e = habitId))
      (logEntries db) in
  if truthy startDate && truthy endDate then
    filter (λ e, String.le (default "" startDate) (LogEntry.date e)
                 ∧ String.le (LogEntry.date e) (default "" endDate))
           query
  else query.

(* --------------------------------------------------------------------- *)
(** *** The read models of [hooks/useHabits.ts] *)
(* --------------------------------------------------------------------- *)

(** [Array.prototype.sort] with a comparator on one key: a stable sort,
    here by insertion from the right. *)
Fixpoint sort_insert {A : Type} (key : A → Z) (x : A) (l : list A) : list A :=
  match l with
  | [] => [x]
  | y :: l' =>
      if decide (key x ≤ key y)%Z then x :: y :: l'
      else y :: sort_insert key x l'
  end.

Definition stable_sort {A : Type} (key : A → Z) (l : list A) : list A :=
  foldr (sort_insert key) [] l.

(** [Collection.sortBy('order')] on habits. *)
Definition sortBy_order (l : list Habit.t) : list Habit.t :=
  stable_sort Habit.order l.

(** [useCategories()] *)
Definition useCategories (db : DB) : list Category.t :=
  orderBy Z.le Category.order (categories db).

(** [useHabits(categoryId?)] *)
Definition useHabits (categoryId : option string) (db : DB) : list Habit.t :=
  if truthy categoryId then
    sortBy_order
      (filter (λ h, Habit.isActive h = true)
         (where_equals
            (λ h, bool_decide (Habit.categoryId h = default "" categoryId))
            (habits db)))
  else
    sortBy_order (filter (λ h, Habit.isActive h = true) (toArray (habits db))).

(** [useAllHabits()] *)
Definition useAllHabits (db : DB) : list Habit.t :=
  orderBy Z.le Habit.order (habits db).

(** [useHabitsWithLogs(date, hisabType?)]: the active habits, each with
    the entry the [Map] built from that day's entries holds for it. *)
Definition useHabitsWithLogs (date : string) (hisabType : option HisabType)
    (db : DB) : list (Habit.t * option LogEntry.t) :=
  let categoryId :=
    match hisabType with
    | Some shubh => Some SHUBH_HISAB_ID
    | Some ashubh => Some ASHUBH_HISAB_ID
    | None => None
    end in
  let habits :=
    match categoryId with
    | Some c =>
        sortBy_order
          (filter (λ h, Habit.isActive h = true ∧ Habit.categoryId h = c)
             (toArray (habits db)))
    | None =>
        sortBy_order
          (filter (λ h, Habit.isActive h = true) (toArray (habits db)))
    end in
  let logs := getLogEntriesForDate date db in
  let logMap : gmap string LogEntry.t :=
    foldl (λ m log, <[LogEntry.habitId log := log]> m) ∅ logs in
  (λ habit, (habit, logMap !! Habit.id habit)) <$> habits.




Global Instance Category_inhabited : Inhabited Category.t :=
  populate (Category.mk "" "" None "" "" 0 false None 0).

Global Instance Habit_inhabited : Inhabited Habit.t :=
  populate (Habit.mk "" "" None None "" boolean None None None None
              Absent Absent None Absent 0 false 0).


(* --------------------------------------------------------------------- *)
(** *** Date keys *)
(* --------------------------------------------------------------------- *)

(** What [getFullYear()], [getMonth()] (0 to 11) and [getDate()] read off
    a [Date]. *)
Record LocalDate := {
  getFullYear : Z;
  getMonth : Z;
  getDate : Z
}.

(** [String(n)] and the template conversion of an integer: its decimal
    numeral. *)
Definition String_of (n : Z) : string := pretty n.

(** The filler of [padStart]: [padString] repeated and cut to [k]
    characters ([cur] is what is left of the current repetition). *)
Fixpoint pad_fill (padString cur : string) (k : nat) : string :=
  match k with
  | O => ""
  | Datatypes.S k' =>
      match cur with
      | String c rest => String c (pad_fill padString rest k')
      | "" =>
          match padString with
          | String c rest => String c (pad_fill padString rest k')
          | "" => ""
          end
      end
  end.

(** [s.padStart(targetLength, padString)] *)
Definition padStart (targetLength : nat) (padString : string) (s : string)
    : string :=
  pad_fill padString padString (targetLength - String.length s) +:+ s.

Definition formatDateKey (date : LocalDate) : string :=
  let year := getFullYear date in
  let month := padStart 2 "0" (String_of (getMonth date + 1)) in
  let day := padStart 2 "0" (String_of (getDate date)) in
  String_of year +:+ "-" +:+ month +:+ "-" +:+ day.


(** Dates whose year has four digits, with the calendar's month and day
    ranges. *)
Definition in_key_range (d : LocalDate) : Prop :=
  (1000 ≤ getFullYear d ≤ 9999)%Z
  ∧ (0 ≤ getMonth d ≤ 11)%Z
  ∧ (1 ≤ getDate d ≤ 31)%Z.

(** Calendar order: by year, then month, then day. *)
Definition date_le (d1 d2 : LocalDate) : Prop :=
  (getFullYear d1 < getFullYear d2)%Z
  ∨ (getFullYear d1 = getFullYear d2
     ∧ ((getMonth d1 < getMonth d2)%Z
        ∨ (getMonth d1 = getMonth d2 ∧ (getDate d1 ≤ getDate d2)%Z))).


(* --------------------------------------------------------------------- *)
(** *** Google Sheets schema versioning (services/sheetsSchema.ts) *)
(* --------------------------------------------------------------------- *)

(** A cell or property value of type [unknown]; numbers are integers
    here. *)
#[warnings="-register-all"] Inductive JsValue :=
  | JUndefined
  | JNull
  | JBool (b : bool)
  | JNum (n : Z)
  | JStr (s : string)
  | JArr (items : list JsValue)
  | JDate (d : Date).

(** A [Record<string, unknown>]: its own properties. The property names
    are column names. *)
Abbreviation JsRow := (gmap string JsValue).

Inductive TableName := TCategories | THabits | TLogEntries | TSettings.

Definition CURRENT_SHEET_SCHEMA_VERSION : Z := 1.

(** [SHEET_SCHEMA_VERSIONS[version]?.[tableName] || []] *)
Definition sheetColumns (version : Z) (tableName : TableName) : list string :=
  if decide (version = 1) then
    match tableName with
    | TCategories =>
        ["id"; "name"; "nameHindi"; "color"; "icon"; "order"; "isFixed";
         "hisabType"; "createdAt"]
    | THabits =>
        ["id"; "name"; "description"; "image"; "categoryId"; "type";
         "options"; "unit"; "target"; "interval"; "trackingDay";
         "trackingDate"; "reminderEnabled"; "reminderTime"; "order";
         "isActive"; "createdAt"]
    | TLogEntries =>
        ["id"; "habitId"; "date"; "value"; "note"; "skippedReason";
         "createdAt"; "updatedAt"]
    | TSettings => ["key"; "value"]
    end
  else [].

(** [getDefaultValuesForVersion(version)[tableName] || {}] *)
Definition sheetDefaults (version : Z) (tableName : TableName) : JsRow :=
  if decide (version = 1) then
    match tableName with
    | TCategories =>
        list_to_map
          [("nameHindi", JStr ""); ("isFixed", JBool false);
           ("hisabType", JStr "shubh")]
    | THabits =>
        list_to_map
          [("description", JStr ""); ("image", JStr ""); ("options", JNull);
           ("unit", JStr ""); ("target", JNull); ("interval", JStr "daily");
           ("trackingDay", JNull); ("trackingDate", JNull);
           ("reminderEnabled", JBool false); ("reminderTime", JNull)]
    | TLogEntries =>
        list_to_map [("note", JStr ""); ("skippedReason", JStr "")]
    | TSettings => ∅
    end
  else ∅.

(** [defaults[col] ?? null] *)
Definition defaultOrNull (defaults : JsRow) (col : string) : JsValue :=
  match defaults !! col with
  | None | Some JUndefined | Some JNull => JNull
  | Some v => v
  end.

Definition upgradeSheetRow (fromColumns toColumns : list string)
    (defaults : JsRow) (row : JsRow) : JsRow :=
  let copied :=
    foldl (λ upgraded col,
             match row !! col with
             | Some v => <[col := v]> upgraded
             | None => upgraded
             end) ∅ fromColumns in
  foldl (λ upgraded col,
           match upgraded !! col with
           | Some _ => upgraded
           | None => <[col := defaultOrNull defaults col]> upgraded
           end) copied toColumns.

Definition upgradeSheetData (data : list JsRow) (fromVersion toVersion : Z)
    (tableName : TableName) : list JsRow :=
  if decide (toVersion ≤ fromVersion)%Z then data
  else
    let fromColumns := sheetColumns fromVersion tableName in
    let toColumns := sheetColumns toVersion tableName in
    let defaults := sheetDefaults toVersion tableName in
    upgradeSheetRow fromColumns toColumns defaults <$> data.




Section MapObjectToRow.
(** [JSON.stringify] on arrays and [Date.prototype.toISOString], as given
    by the platform. *)
Variable JSON_stringify : list JsValue → string.
Variable toISOString : Date → string.


End MapObjectToRow.

(** The result of [validateSchemaVersion]. *)
Record Validation := { valid : bool; errors : list string }.

Definition validateSchemaVersion (data : list JsRow) (columns : list string)
    (tableName : TableName) : Validation :=
  match data with
  | [] => {| valid := true; errors := [] |}
  | firstRow :: _ =>
      let errors :=
        omap (λ col, match firstRow !! col with
                     | Some _ => None
                     | None => Some ("Missing column: " +:+ col)
                     end) columns in
      {| valid := bool_decide (errors = []); errors := errors |}
  end.

(** A sheet row as it comes back from a version-1 [habits] sheet, with an
    extra column the schema does not know. *)
Definition sample_sheet_row : JsRow :=
  list_to_map
    [("id", JStr "h1"); ("name", JStr "Japa"); ("categoryId", JStr "c1");
     ("type", JStr "count"); ("order", JNum 0); ("isActive", JBool true);
     ("legacyColumn", JStr "x")].


(* --------------------------------------------------------------------- *)
(** *** Statistics helpers *)
(* --------------------------------------------------------------------- *)

Global Instance LogValue_eq_dec : EqDecision LogValue.
Proof. solve_decision. Defined.

(** [Collection.sortBy('date')]: the array in index order, sorted stably
    by the date strings. *)
Fixpoint sort_insert_date (x : LogEntry.t) (l : list LogEntry.t)
    : list LogEntry.t :=
  match l with
  | [] => [x]
  | y :: l' =>
      if decide (String.le (LogEntry.date x) (LogEntry.date y))
      then x :: y :: l'
      else y :: sort_insert_date x l'
  end.

Definition sortBy_date (l : list LogEntry.t) : list LogEntry.t :=
  foldr sort_insert_date [] l.

Definition MS_PER_DAY : Z := 1000 * 60 * 60 * 24.

Section Streak.
(** The platform's [Date]: [new Date(s).getTime()] ([None] for an invalid
    date, whose time value is NaN), and the time value after
    [d.setDate(d.getDate() - 1)]. *)
Variable getTime : string → option Z.
Variable setDateBack : Z → Z.

(** The entries the loop of [calculateStreak] walks, latest first. *)
Definition streakEntries (habitId upToDate : string) (db : DB)
    : list LogEntry.t :=
  reverse
    (sortBy_date
       (filter (λ e, String.le (LogEntry.date e) upToDate
                     ∧ LogEntry.value e = VBool true)
          (where_equals (λ e, bool_decide (LogEntry.habitId e = habitId))
             (logEntries db)))).

(** The [for] loop; a NaN on either side makes [diffDays] NaN, which is
    neither 0 nor 1. *)
Fixpoint streak_loop (entries : list LogEntry.t) (expectedDate : option Z)
    (streak : nat) : nat :=
  match entries with
  | [] => streak
  | entry :: rest =>
      match expectedDate, getTime (LogEntry.date entry) with
      | Some expected, Some entryDate =>
          let diffDays := ((expected - entryDate) `div` MS_PER_DAY)%Z in
          if decide (diffDays = 0) then
            streak_loop rest (Some (setDateBack expected)) (Datatypes.S streak)
          else if decide (diffDays = 1) then
            streak_loop rest (Some (setDateBack entryDate))
              (Datatypes.S streak)
          else streak
      | _, _ => streak
      end
  end.

Definition calculateStreak (habitId upToDate : string) (db : DB) : nat :=
  let entries := streakEntries habitId upToDate db in
  match entries with
  | [] => 0%nat
  | _ => streak_loop entries (getTime upToDate) 0
  end.
End Streak.

(** Day numbers, latest first, in which the first is the reference day or
    the day before it and each next one lies one or two days before its
    predecessor. *)
Fixpoint gaps_ok (reference : Z) (days : list Z) : Prop :=
  match days with
  | [] => True
  | d :: rest => (reference - d = 0 ∨ reference - d = 1) ∧ gaps_ok (d - 1) rest
  end.

(** A calendar for three January days, at midnight UTC. *)
Definition sample_getTime (s : string) : option Z :=
  if decide (s = "2026-01-05") then Some (20458 * MS_PER_DAY)
  else if decide (s = "2026-01-07") then Some (20460 * MS_PER_DAY)
  else if decide (s = "2026-01-09") then Some (20462 * MS_PER_DAY)
  else None.

Definition sample_streak_db : DB :=
  stored
    [ sample_entry "e1" "2026-01-05" (VBool true);
      sample_entry "e2" "2026-01-07" (VBool true);
      sample_entry "e3" "2026-01-09" (VBool true) ].


(* --------------------------------------------------------------------- *)
(** *** The manage view *)
(* --------------------------------------------------------------------- *)

(** [habit.categoryId || 'uncategorized'] *)
Definition groupKey (habit : Habit.t) : string :=
  if truthy (Some (Habit.categoryId habit)) then Habit.categoryId habit
  else "uncategorized".

(** One turn of the grouping loop: the key's array is created empty when
    the [Map] has no such key, then the habit is pushed on it. *)
Definition group_push (grouped : gmap string (list Habit.t))
    (habit : Habit.t) : gmap string (list Habit.t) :=
  let categoryId := groupKey habit in
  let grouped :=
    if decide (is_Some (grouped !! categoryId)) then grouped
    else <[categoryId := []]> grouped in
  <[categoryId := (default [] (grouped !! categoryId) ++ [habit])%list]>
    grouped.

(** The [Map] the grouping loop builds from the active habits in display
    order; it is only read through [get]. *)
Definition habitsByCategory (db : DB) : gmap string (list Habit.t) :=
  foldl group_push ∅
    (sortBy_order (filter (λ h, Habit.isActive h = true) (toArray (habits db)))).

(** [useCategoriesWithHabits()] *)
Definition useCategoriesWithHabits (db : DB)
    : list (Category.t * list Habit.t) :=
  (λ category,
     (category, default [] (habitsByCategory db !! Category.id category)))
    <$> orderBy Z.le Category.order (categories db).


(** A seeded store with one habit in the positive category and one created
    with an empty category identifier. *)
Definition sample_uncategorized_db : DB :=
  let db0 := (seedDefaultCategories 1 emptyDB).2 in
  let db1 := (createHabit 10 "h1" sample_habit_data db0).2 in
  (createHabit 11 "h2"
     (HabitData.mk "Dhyan" None None "" boolean None None None daily
        Absent Absent false Absent) db1).2.


(* ===================================================================== *)
(** ** Facts about the table primitives *)
(* ===================================================================== *)

(** A list of keyed rows in which a predicate picks rows of one key only
    holds at most one such row. *)
Lemma filter_one_key {A} (P : A → Prop) `{!∀ x, Decision (P x)}
    (l : list (string * A)) :
  NoDup l.*1 →
  (∀ x y, x ∈ l → y ∈ l → P x.2 → P y.2 → x.1 = y.1) →
  (length (filter P l.*2) ≤ 1)%nat.
Proof.
  induction l as [|x l IH]; intros Hnd Hone; [simpl; lia|].
  rewrite fmap_cons in Hnd. apply NoDup_cons in Hnd as [Hx Hnd].
  rewrite fmap_cons, filter_cons. destruct (decide (P x.2)) as [HP|HP].
  - assert (filter P l.*2 = []) as ->; [|simpl; lia].
    destruct (filter P l.*2) as [|a l'] eqn:E; [done|].
    assert (a ∈ filter P l.*2) as Ha by (rewrite E; left).
    apply list_elem_of_filter in Ha as [HPa Ha]. exfalso.
    apply list_elem_of_fmap in Ha as [y [-> Hy]].
    apply Hx. rewrite (Hone x y); [|left|by right|done..].
    apply list_elem_of_fmap. by exists y.
  - apply IH; [done|]. intros y z Hy Hz. apply Hone; by right.
Qed.

Section TableFacts.
Context {R : Type} (S : Schema R).
Implicit Types (t : gmap string R) (r : R) (k : string).

Lemma elem_of_toArray t r : r ∈ toArray t ↔ ∃ k, t !! k = Some r.
Proof.
  unfold toArray. rewrite merge_sort_Permutation, list_elem_of_fmap. split.
  - intros [[k r'] [-> Hin]]. exists k. by apply elem_of_map_to_list.
  - intros [k Hk]. exists (k, r). split; [done|]. by apply elem_of_map_to_list.
Qed.

Lemma elem_of_where_equals sel t r :
  r ∈ where_equals sel t ↔ sel r = true ∧ ∃ k, t !! k = Some r.
Proof. unfold where_equals. by rewrite list_elem_of_filter, elem_of_toArray. Qed.

Lemma head_where_Some sel t r :
  head (where_equals sel t) = Some r → sel r = true ∧ ∃ k, t !! k = Some r.
Proof. intros H. apply elem_of_where_equals. by eapply head_Some_elem_of. Qed.

Lemma head_where_None sel t k r :
  head (where_equals sel t) = None → t !! k = Some r → sel r = false.
Proof.
  intros Hnone Hk. destruct (sel r) eqn:Hsel; [|done].
  assert (r ∈ where_equals sel t) as Hin by (apply elem_of_where_equals; eauto).
  destruct (where_equals sel t); [by apply elem_of_nil in Hin | done].
Qed.

Lemma wf_lookup t k r : wf_table S t → t !! k = Some r → pk S r = k.
Proof. intros Hwf Hk. exact (Hwf k r Hk). Qed.

Lemma wf_insert t k r : wf_table S t → pk S r = k → wf_table S (<[k := r]> t).
Proof. intros Hwf Hk. by apply map_Forall_insert_2. Qed.

Lemma where_equals_length sel t :
  (∀ k1 k2 r1 r2, t !! k1 = Some r1 → t !! k2 = Some r2 →
                  sel r1 = true → sel r2 = true → k1 = k2) →
  (length (where_equals sel t) ≤ 1)%nat.
Proof.
  intros Hone. unfold where_equals, toArray.
  set (l := merge_sort _ _).
  assert (l ≡ₚ map_to_list t) as Hp by apply merge_sort_Permutation.
  apply filter_one_key.
  - rewrite Hp. apply NoDup_fst_map_to_list.
  - intros [k1 r1] [k2 r2] H1 H2 Hs1 Hs2; simpl in *.
    rewrite Hp in H1, H2. apply elem_of_map_to_list in H1, H2. eauto.
Qed.

Lemma foldl_store_lookup (rs : list R) k r :
  NoDup (pk S <$> rs) →
  foldl (λ acc x, store S x acc) ∅ rs !! k = Some r ↔ r ∈ rs ∧ pk S r = k.
Proof.
  induction rs as [|x rs IH] using rev_ind; intros Hnd.
  - simpl. rewrite lookup_empty. split; [done|]. intros [Hin _].
    by apply elem_of_nil in Hin.
  - rewrite fmap_app in Hnd. apply NoDup_app in Hnd as (Hnd & Hx & _).
    rewrite foldl_snoc. unfold store at 1.
    rewrite elem_of_app, list_elem_of_singleton.
    destruct (decide (pk S x = k)) as [<-|Hne].
    + rewrite lookup_insert_eq. split.
      * intros [= <-]. auto.
      * intros [[Hin| ->] Hid]; [|done]. exfalso.
        apply (Hx (pk S x)); [|simpl; left].
        rewrite <-Hid. apply list_elem_of_fmap. by exists r.
    + rewrite lookup_insert_ne by done. rewrite (IH Hnd). split.
      * intros [??]. auto.
      * intros [[Hin| ->] Hid]; [done|congruence].
Qed.

Lemma toArray_keys_NoDup t : wf_table S t → NoDup (pk S <$> toArray t).
Proof.
  intros Hwf. unfold toArray. rewrite merge_sort_Permutation.
  rewrite <-list_fmap_compose.
  assert (pk S ∘ snd <$> map_to_list t = (map_to_list t).*1) as ->.
  { apply list_fmap_ext. intros i [j r] Hi. simpl.
    apply list_elem_of_lookup_2, elem_of_map_to_list in Hi. by apply Hwf. }
  apply NoDup_fst_map_to_list.
Qed.

Lemma bulkPut_empty now rs (acc : gmap string R) :
  foldl (λ acc r,
           match (∅ : gmap string R) !! pk S r with
           | Some _ => store S (updating S now r) acc
           | None => store S (creating S now r) acc
           end) acc rs
  = foldl (λ acc x, store S x acc) acc (creating S now <$> rs).
Proof.
  revert acc. induction rs as [|r rs IH]; intros acc; [done|].
  simpl. rewrite lookup_empty. apply IH.
Qed.

(** Clearing a table and putting its rows back files every row under its
    key again, after the [creating] hook has run on it. *)
Lemma bulkPut_toArray now t :
  wf_table S t →
  (∀ r, pk S (creating S now r) = pk S r) →
  bulkPut S now (toArray t) (clear t) = creating S now <$> t.
Proof.
  intros Hwf Hpk. unfold bulkPut, clear. rewrite bulkPut_empty.
  apply map_eq. intros k. apply option_eq. intros r'.
  rewrite foldl_store_lookup.
  - rewrite lookup_fmap, fmap_Some, list_elem_of_fmap. split.
    + intros [(r & -> & Hin) Hk]. apply elem_of_toArray in Hin as [j Hj].
      exists r. split; [|done]. rewrite Hpk in Hk.
      by rewrite <-Hk, (wf_lookup t j r Hwf Hj).
    + intros (r & Hr & ->). split.
      * exists r. split; [done|]. apply elem_of_toArray. eauto.
      * rewrite Hpk. by eapply wf_lookup.
  - rewrite <-list_fmap_compose.
    assert (pk S ∘ creating S now <$> toArray t = pk S <$> toArray t) as ->.
    { apply list_fmap_ext. intros i r _. apply Hpk. }
    by apply toArray_keys_NoDup.
Qed.
End TableFacts.



(* ===================================================================== *)
(** ** Logging: the natural key [(habitId, date)] *)
(* ===================================================================== *)

Lemma same_pair_true h d e :
  same_pair h d e = true ↔ LogEntry.habitId e = h ∧ LogEntry.date e = d.
Proof. unfold same_pair. apply bool_decide_eq_true. Qed.

Lemma same_pair_false h d e :
  same_pair h d e = false ↔ ¬ (LogEntry.habitId e = h ∧ LogEntry.date e = d).
Proof. unfold same_pair. apply bool_decide_eq_false. Qed.

(** What one call does to the [logEntries] table: it rewrites the row it
    found in place, or files a new row under an unused key, or is rejected
    and changes nothing. *)
Lemma exec_log_cases c db :
  wf_table logEntriesSchema (logEntries db) →
  (∃ e e',
      logEntries db !! LogEntry.id e = Some e
      ∧ same_pair (call_pair c).1 (call_pair c).2 e = true
      ∧ (exec_log c db).1 = Ok (LogEntry.id e)
      ∧ logEntries (exec_log c db).2 = <[LogEntry.id e := e']> (logEntries db)
      ∧ LogEntry.id e' = LogEntry.id e
      ∧ LogEntry.habitId e' = LogEntry.habitId e
      ∧ LogEntry.date e' = LogEntry.date e)
  ∨ ((∀ k e, logEntries db !! k = Some e →
             same_pair (call_pair c).1 (call_pair c).2 e = false)
     ∧ ((∃ k e',
           logEntries db !! k = None
           ∧ (exec_log c db).1 = Ok k
           ∧ logEntries (exec_log c db).2 = <[k := e']> (logEntries db)
           ∧ LogEntry.id e' = k
           ∧ same_pair (call_pair c).1 (call_pair c).2 e' = true)
        ∨ ((exec_log c db).1 = Throw ConstraintError
           ∧ (exec_log c db).2 = db))).
Proof.
  intros Hwf.
  destruct c as [now fresh h d v n | now fresh h d r]; simpl;
    [unfold logHabit | unfold skipHabit];
    (destruct (head (where_habitId_date h d (logEntries db)))
       as [existing|] eqn:Hhead;
     [ left; apply head_where_Some in Hhead as [Hsel [k Hk]];
       pose proof (wf_lookup _ _ _ _ Hwf Hk) as Hid; simpl in Hid; subst k;
       eexists existing, _; simpl; unfold update; rewrite Hk; simpl;
       repeat split; done
     | right; split;
       [ intros k e Hk; by eapply head_where_None
       | unfold add, store; simpl;
         destruct (logEntries db !! fresh) eqn:Hfresh; simpl;
         [ by right
         | left; eexists fresh, _; repeat split; try done;
           apply same_pair_true; done ] ] ]).
Qed.

Lemma exec_log_inv c db : log_inv db → log_inv (exec_log c db).2.
Proof.
  intros [Hwf Hone].
  destruct (exec_log_cases c db Hwf)
    as [(e & e' & He & _ & _ & Ht & Hid & Hh & Hd)
       | [Hnone [(k & e' & Hk & _ & Ht & Hid & Hp) | [_ ->]]]];
    [| |by split].
  - split; rewrite Ht.
    + by apply wf_insert.
    + intros k1 k2 e1 e2 H1 H2 Hh12 Hd12.
      assert (∀ k x, <[LogEntry.id e := e']> (logEntries db) !! k = Some x →
                ∃ y, logEntries db !! k = Some y
                     ∧ LogEntry.habitId y = LogEntry.habitId x
                     ∧ LogEntry.date y = LogEntry.date x) as Hback.
      { intros k x Hx. destruct (decide (LogEntry.id e = k)) as [<-|Hne].
        - rewrite lookup_insert_eq in Hx. injection Hx as <-. eauto.
        - rewrite lookup_insert_ne in Hx by done. eauto. }
      destruct (Hback _ _ H1) as (y1 & Hy1 & Hyh1 & Hyd1).
      destruct (Hback _ _ H2) as (y2 & Hy2 & Hyh2 & Hyd2).
      eapply Hone; [done..|congruence|congruence].
  - split; rewrite Ht.
    + by apply wf_insert.
    + intros k1 k2 e1 e2 H1 H2 Hh12 Hd12.
      apply same_pair_true in Hp as [Hph Hpd].
      destruct (decide (k = k1)) as [<-|Hne1];
        destruct (decide (k = k2)) as [<-|Hne2]; [done|..].
      * rewrite lookup_insert_eq in H1. injection H1 as <-.
        rewrite lookup_insert_ne in H2 by done.
        apply Hnone, same_pair_false in H2. destruct H2. split; congruence.
      * rewrite lookup_insert_eq in H2. injection H2 as <-.
        rewrite lookup_insert_ne in H1 by done.
        apply Hnone, same_pair_false in H1. destruct H1. split; congruence.
      * rewrite lookup_insert_ne in H1, H2 by done. eauto.
Qed.

Lemma exec_log_returns c db k :
  wf_table logEntriesSchema (logEntries db) →
  (exec_log c db).1 = Ok k →
  ∃ e, logEntries (exec_log c db).2 !! k = Some e
       ∧ same_pair (call_pair c).1 (call_pair c).2 e = true.
Proof.
  intros Hwf Hr.
  destruct (exec_log_cases c db Hwf)
    as [(e & e' & He & Hp & Hr' & Ht & Hid & Hh & Hd)
       | [Hnone [(k' & e' & Hk & Hr' & Ht & Hid & Hp) | [Hr' _]]]];
    rewrite Hr' in Hr; [| |done]; injection Hr as <-; rewrite Ht;
    exists e'; rewrite lookup_insert_eq; split; try done.
  apply same_pair_true in Hp as [Hph Hpd]. apply same_pair_true.
  split; congruence.
Qed.

Lemma exec_log_keeps c db k e :
  wf_table logEntriesSchema (logEntries db) →
  logEntries db !! k = Some e →
  ∃ e', logEntries (exec_log c db).2 !! k = Some e'
        ∧ LogEntry.habitId e' = LogEntry.habitId e
        ∧ LogEntry.date e' = LogEntry.date e.
Proof.
  intros Hwf Hk.
  destruct (exec_log_cases c db Hwf)
    as [(x & x' & Hx & Hp & Hr' & Ht & Hid & Hh & Hd)
       | [Hnone [(k' & x' & Hk' & Hr' & Ht & Hid & Hp) | [_ ->]]]];
    [| |by eauto]; rewrite Ht.
  - destruct (decide (LogEntry.id x = k)) as [<-|Hne].
    + rewrite lookup_insert_eq. exists x'. split; [done|].
      rewrite Hx in Hk. injection Hk as <-. done.
    + rewrite lookup_insert_ne by done. eauto.
  - destruct (decide (k' = k)) as [<-|Hne]; [congruence|].
    rewrite lookup_insert_ne by done. eauto.
Qed.

Lemma exec_log_existing c db k e :
  log_inv db →
  logEntries db !! k = Some e →
  same_pair (call_pair c).1 (call_pair c).2 e = true →
  (exec_log c db).1 = Ok k.
Proof.
  intros [Hwf Hone] Hk Hp.
  destruct (exec_log_cases c db Hwf)
    as [(x & x' & Hx & Hpx & Hr' & _)
       | [Hnone _]].
  - rewrite Hr'. f_equal.
    apply same_pair_true in Hp as [Hph Hpd].
    apply same_pair_true in Hpx as [Hxh Hxd].
    eapply Hone; [done..|congruence|congruence].
  - apply Hnone in Hk. congruence.
Qed.

Lemma run_log_cons c cs db :
  run_log (c :: cs) db
  = ((exec_log c db).1 :: (run_log cs (exec_log c db).2).1,
     (run_log cs (exec_log c db).2).2).
Proof.
  simpl. destruct (exec_log c db) as [r db1]. simpl.
  by destruct (run_log cs db1).
Qed.

Lemma run_log_inv cs db : log_inv db → log_inv (run_log cs db).2.
Proof.
  revert db. induction cs as [|c cs IH]; intros db Hinv; [done|].
  rewrite run_log_cons. simpl. by apply IH, exec_log_inv.
Qed.

(** A row already filed under [k] decides the identifier every later call
    on its pair returns. *)
Lemma run_log_existing cs db k e j cj idj :
  log_inv db →
  logEntries db !! k = Some e →
  cs !! j = Some cj →
  same_pair (call_pair cj).1 (call_pair cj).2 e = true →
  (run_log cs db).1 !! j = Some (Ok idj) →
  idj = k.
Proof.
  revert db e j. induction cs as [|c cs IH]; intros db e j Hinv Hk Hj Hp Hr;
    [done|].
  rewrite run_log_cons in Hr. simpl in Hr. destruct j as [|j]; simpl in *.
  - injection Hj as ->. injection Hr as Hr.
    rewrite (exec_log_existing cj db k e) in Hr by done. by injection Hr.
  - destruct (exec_log_keeps c db k e (proj1 Hinv) Hk)
      as (e' & Hk' & Hh & Hd).
    eapply (IH _ e' j); [by apply exec_log_inv|done..| |done].
    apply same_pair_true in Hp as [Hph Hpd]. apply same_pair_true.
    split; congruence.
Qed.

(** C1. Upsert uniqueness: started from a store that respects the natural
    key, any sequence of [logHabit] / [skipHabit] calls ends in a store
    where the [(habitId, date)] query yields at most one row, and any two
    calls of the sequence on the same pair that return return the same
    identifier. *)
Theorem upsert_unique_stable cs db0 :
  log_inv db0 →
  (∀ h d,
     (length (where_habitId_date h d (logEntries (run_log cs db0).2)) ≤ 1)%nat)
  ∧ (∀ i j ci cj idi idj,
       cs !! i = Some ci → cs !! j = Some cj →
       call_pair ci = call_pair cj →
       (run_log cs db0).1 !! i = Some (Ok idi) →
       (run_log cs db0).1 !! j = Some (Ok idj) →
       idi = idj).
Proof.
  intros Hinv. split.
  - intros h d. destruct (run_log_inv cs db0 Hinv) as [_ Hone].
    apply where_equals_length. intros k1 k2 r1 r2 H1 H2 Hs1 Hs2.
    apply same_pair_true in Hs1 as [??]. apply same_pair_true in Hs2 as [??].
    eapply Hone; [done..|congruence|congruence].
  - revert db0 Hinv. induction cs as [|c cs IH]; intros db0 Hinv i j ci cj
      idi idj Hi Hj Hpair Hri Hrj; [done|].
    rewrite run_log_cons in Hri, Hrj. simpl in Hri, Hrj.
    assert (∀ a ca ida b cb idb,
              (c :: cs) !! a = Some ca → (c :: cs) !! b = Some cb →
              call_pair ca = call_pair cb →
              ((exec_log c db0).1 :: (run_log cs (exec_log c db0).2).1) !! a
                = Some (Ok ida) →
              ((exec_log c db0).1 :: (run_log cs (exec_log c db0).2).1) !! b
                = Some (Ok idb) →
              a = 0%nat → ida = idb) as Hfirst.
    { intros a ca ida b cb idb Ha Hb Hp Hra Hrb ->. simpl in *.
      injection Ha as ->. injection Hra as Hra.
      destruct b as [|b]; simpl in *; [congruence|].
      destruct (exec_log_returns ca db0 ida (proj1 Hinv) Hra) as (e & He & Hpe).
      symmetry. eapply (run_log_existing cs _ ida e b cb);
        [by apply exec_log_inv|done..| |done].
      by rewrite <-Hp. }
    destruct i as [|i]; [by eapply (Hfirst 0%nat _ _ j)|].
    destruct j as [|j]; [symmetry; by eapply (Hfirst 0%nat _ _ (Datatypes.S i))|].
    simpl in *. eapply (IH _ (exec_log_inv c db0 Hinv) i j); done.
Qed.

(** C10. Skipping a day that already has a row rewrites that row's
    [skippedReason] and [updatedAt] and nothing else: identifier,
    [createdAt], [value] and [note] stay, the other rows and tables stay,
    and the identifier of the row is what the call returns. *)
Theorem skipHabit_existing_frame now fresh h d reason db existing :
  wf_table logEntriesSchema (logEntries db) →
  getLogEntry h d db = Some existing →
  (skipHabit now fresh h d reason db).1 = Ok (LogEntry.id existing)
  ∧ (skipHabit now fresh h d reason db).2
    = set_logEntries
        (<[LogEntry.id existing :=
             LogEntry.mk (LogEntry.id existing) (LogEntry.habitId existing)
               (LogEntry.date existing) (LogEntry.value existing)
               (LogEntry.note existing) (Some reason)
               (LogEntry.createdAt existing) now]> (logEntries db)) db.
Proof.
  intros Hwf Hget. unfold getLogEntry in Hget. unfold skipHabit.
  rewrite Hget. simpl. split; [done|]. f_equal.
  apply head_where_Some in Hget as [_ [k Hk]].
  pose proof (wf_lookup _ _ _ _ Hwf Hk) as Hid. simpl in Hid. subst k.
  unfold update. by rewrite Hk.
Qed.

Lemma skipHabit_existing_frame_witness :
  let db := (run_log sample_log_calls emptyDB).2 in
  let existing :=
    LogEntry.mk "e1" "h1" "2026-01-05" (VBool false) None (Some "travelling")
      1 4 in
  wf_table logEntriesSchema (logEntries db)
  ∧ getLogEntry "h1" "2026-01-05" db = Some existing
  ∧ (skipHabit 9 "e9" "h1" "2026-01-05" "fasting" db).1 = Ok "e1"
  ∧ logEntries (skipHabit 9 "e9" "h1" "2026-01-05" "fasting" db).2 !! "e1"
    = Some (LogEntry.mk "e1" "h1" "2026-01-05" (VBool false) None
              (Some "fasting") 1 9).
Proof.
  intros db existing.
  assert (wf_table logEntriesSchema (logEntries db)) as Hwf.
  { apply map_Forall_to_list, Forall_forall. intros [k e].
    vm_compute. intros Hin.
    repeat (apply elem_of_cons in Hin as [Hin|Hin];
            [by injection Hin as -> ->|]).
    by apply elem_of_nil in Hin. }
  assert (getLogEntry "h1" "2026-01-05" db = Some existing) as Hget
    by (vm_compute; reflexivity).
  destruct (skipHabit_existing_frame 9 "e9" "h1" "2026-01-05" "fasting"
              db existing Hwf Hget) as [Hr Hdb].
  split; [exact Hwf|]. split; [exact Hget|]. split; [exact Hr|].
  rewrite Hdb. vm_compute. reflexivity.
Defined.

Lemma log_inv_empty : log_inv emptyDB.
Proof.
  split; [apply map_Forall_empty|].
  intros k1 k2 e1 e2 H1. simpl in H1. by rewrite lookup_empty in H1.
Defined.

Lemma upsert_unique_stable_witness :
  log_inv emptyDB
  ∧ (length (where_habitId_date "h1" "2026-01-05"
               (logEntries (run_log sample_log_calls emptyDB).2)) ≤ 1)%nat
  ∧ (run_log sample_log_calls emptyDB).1
    = [Ok "e1"; Ok "e1"; Ok "e3"; Ok "e1"].
Proof.
  split; [exact log_inv_empty|]. split.
  - apply (upsert_unique_stable sample_log_calls emptyDB log_inv_empty).
  - vm_compute. reflexivity.
Defined.

(* ===================================================================== *)
(** ** Range scans over the [date] index *)
(* ===================================================================== *)

Lemma elem_of_orderBy {R I} (ile : relation I) `{!RelDecision ile}
    (ix : R → I) (t : gmap string R) (r : R) :
  r ∈ orderBy ile ix t ↔ ∃ k, t !! k = Some r.
Proof.
  unfold orderBy. rewrite merge_sort_Permutation, list_elem_of_fmap. split.
  - intros [[k r'] [-> Hin]]. exists k. by apply elem_of_map_to_list.
  - intros [k Hk]. exists (k, r). split; [done|]. by apply elem_of_map_to_list.
Qed.

Lemma NoDup_orderBy {R I} (S : Schema R) (ile : relation I)
    `{!RelDecision ile} (ix : R → I) (t : gmap string R) :
  wf_table S t → NoDup (orderBy ile ix t).
Proof.
  intros Hwf. unfold orderBy. rewrite merge_sort_Permutation.
  apply (NoDup_fmap_1 (pk S)). rewrite <-list_fmap_compose.
  assert (pk S ∘ snd <$> map_to_list t = (map_to_list t).*1) as ->.
  { apply list_fmap_ext. intros i [k r] Hi. simpl.
    apply list_elem_of_lookup_2, elem_of_map_to_list in Hi. by apply Hwf. }
  apply NoDup_fst_map_to_list.
Qed.

Lemma stored_wf es : wf_table logEntriesSchema (logEntries (stored es)).
Proof.
  unfold stored. simpl.
  induction es as [|e es IH] using rev_ind; [apply map_Forall_empty|].
  rewrite foldl_snoc. by apply wf_insert.
Qed.

Lemma stored_lookup es k e :
  NoDup (LogEntry.id <$> es) →
  logEntries (stored es) !! k = Some e ↔ e ∈ es ∧ LogEntry.id e = k.
Proof. apply (foldl_store_lookup logEntriesSchema). Qed.

(** The scan on any store: membership is membership in the table within
    the bounds. *)
Lemma getLogEntriesInRange_spec a b db e :
  e ∈ getLogEntriesInRange a b db
  ↔ (∃ k, logEntries db !! k = Some e)
    ∧ String.le a (LogEntry.date e) ∧ String.le (LogEntry.date e) b.
Proof.
  unfold getLogEntriesInRange. destruct (decide (String.le a b)) as [Hab|Hab].
  - rewrite list_elem_of_filter, elem_of_orderBy. tauto.
  - split; [by intros ?%elem_of_nil|].
    intros (_ & H1 & H2). destruct Hab. by etrans.
Qed.

(** C9. Range scan correctness: for rows with distinct identifiers and
    bounds [a <= b], [getLogEntriesInRange a b] returns, without
    repetition, exactly the stored rows whose date lies in [[a, b]], both
    ends included, and returns the same list whatever the order in which
    the rows were filed. *)
Theorem range_scan_exact es es' a b :
  NoDup (LogEntry.id <$> es) →
  es ≡ₚ es' →
  String.le a b →
  (∀ e, e ∈ getLogEntriesInRange a b (stored es)
        ↔ e ∈ es ∧ String.le a (LogEntry.date e)
                 ∧ String.le (LogEntry.date e) b)
  ∧ NoDup (getLogEntriesInRange a b (stored es))
  ∧ getLogEntriesInRange a b (stored es')
    = getLogEntriesInRange a b (stored es).
Proof.
  intros Hnd Hperm Hab.
  split; [|split].
  - intros e. rewrite getLogEntriesInRange_spec. split.
    + intros [[k Hk] Hr]. apply stored_lookup in Hk as [Hin _]; done.
    + intros [Hin Hr]. split; [|done]. exists (LogEntry.id e).
      by apply stored_lookup.
  - unfold getLogEntriesInRange. rewrite decide_True by done.
    apply NoDup_filter. eapply NoDup_orderBy, stored_wf.
  - unfold getLogEntriesInRange.
    assert (logEntries (stored es') = logEntries (stored es)) as ->; [|done].
    apply map_eq. intros k. apply option_eq. intros e.
    rewrite !stored_lookup; [by rewrite Hperm|done|by rewrite <-Hperm].
Qed.

Lemma range_scan_exact_witness :
  NoDup (LogEntry.id <$> sample_entries)
  ∧ sample_entries ≡ₚ sample_entries_shuffled
  ∧ String.le "2026-01-05" "2026-01-07"
  ∧ getLogEntriesInRange "2026-01-05" "2026-01-07"
      (stored sample_entries_shuffled)
    = [ sample_entry "e1" "2026-01-05" (VNum 30);
        sample_entry "e2" "2026-01-07" (VNum 45) ].
Proof.
  assert (NoDup (LogEntry.id <$> sample_entries)) as Hnd
    by (apply (bool_decide_unpack _); vm_compute; exact I).
  assert (sample_entries ≡ₚ sample_entries_shuffled) as Hperm.
  { unfold sample_entries, sample_entries_shuffled.
    etrans; [|apply Permutation_swap]. apply Permutation_skip.
    apply Permutation_swap. }
  assert (String.le "2026-01-05" "2026-01-07") as Hab
    by (vm_compute; exact I).
  destruct (range_scan_exact _ _ _ _ Hnd Hperm Hab) as (_ & _ & Heq).
  split; [exact Hnd|]. split; [exact Hperm|]. split; [exact Hab|].
  rewrite Heq. vm_compute. reflexivity.
Defined.

(* ===================================================================== *)
(** ** Schema version 2 *)
(* ===================================================================== *)

(** C7. Opening a version-1 store runs the version-2 upgrader: a habit
    stored without [interval] is afterwards stored, under the same key and
    identifier, with [interval = daily]; every property it already had
    keeps its value. *)
Theorem open_v1_defaults_interval now db k habit :
  verno db = 1%nat →
  habits db !! k = Some habit →
  Habit.interval habit = None →
  ∃ db' habit',
    open now db = Ok db'
    ∧ verno db' = CURRENT_DB_VERSION
    ∧ dom (habits db') = dom (habits db)
    ∧ habits db' !! k = Some habit'
    ∧ Habit.interval habit' = Some daily
    ∧ Habit.id habit' = Habit.id habit
    ∧ Habit.name habit' = Habit.name habit
    ∧ Habit.description habit' = Habit.description habit
    ∧ Habit.image habit' = Habit.image habit
    ∧ Habit.categoryId habit' = Habit.categoryId habit
    ∧ Habit.type habit' = Habit.type habit
    ∧ Habit.options habit' = Habit.options habit
    ∧ Habit.unit habit' = Habit.unit habit
    ∧ Habit.target habit' = Habit.target habit
    ∧ Habit.order habit' = Habit.order habit
    ∧ Habit.isActive habit' = Habit.isActive habit
    ∧ Habit.createdAt habit' = Habit.createdAt habit
    ∧ (Habit.trackingDay habit ≠ Absent →
       Habit.trackingDay habit' = Habit.trackingDay habit)
    ∧ (Habit.trackingDate habit ≠ Absent →
       Habit.trackingDate habit' = Habit.trackingDate habit)
    ∧ (Habit.reminderTime habit ≠ Absent →
       Habit.reminderTime habit' = Habit.reminderTime habit)
    ∧ (Habit.reminderEnabled habit ≠ None →
       Habit.reminderEnabled habit' = Habit.reminderEnabled habit).
Proof.
  intros Hv Hk Hint. unfold open. rewrite Hv.
  eexists _, (upgradeHabit habit). split; [reflexivity|].
  split; [done|]. split; [simpl; unfold modify; apply dom_fmap_L|].
  split; [simpl; unfold modify; by rewrite lookup_fmap, Hk|].
  unfold upgradeHabit. simpl. rewrite Hint.
  repeat (split; [done|]).
  repeat split.
  - by destruct (Habit.trackingDay habit).
  - by destruct (Habit.trackingDate habit).
  - by destruct (Habit.reminderTime habit).
  - by destruct (Habit.reminderEnabled habit).
Qed.

Lemma open_v1_defaults_interval_witness :
  verno sample_v1_db = 1%nat
  ∧ habits sample_v1_db !! "h1" = Some sample_v1_habit
  ∧ Habit.interval sample_v1_habit = None
  ∧ ∃ db' habit',
      open 200 sample_v1_db = Ok db'
      ∧ habits db' !! "h1" = Some habit'
      ∧ Habit.interval habit' = Some daily
      ∧ Habit.id habit' = "h1".
Proof.
  assert (verno sample_v1_db = 1%nat) as Hv by reflexivity.
  assert (habits sample_v1_db !! "h1" = Some sample_v1_habit) as Hk
    by (vm_compute; reflexivity).
  assert (Habit.interval sample_v1_habit = None) as Hi by reflexivity.
  split; [exact Hv|]. split; [exact Hk|]. split; [exact Hi|].
  destruct (open_v1_defaults_interval 200 sample_v1_db "h1" sample_v1_habit
              Hv Hk Hi)
    as (db' & habit' & Ho & _ & _ & Hk' & Hint & Hid & _).
  exists db', habit'. split; [exact Ho|]. split; [exact Hk'|].
  split; [exact Hint|]. exact Hid.
Defined.

(** C2, the code at a version-1 snapshot: [importAllData] takes the
    warning branch and then loads the habit as it is, still without
    [interval], where the upgrader would have set [daily]. *)
Example import_v1_snapshot_not_upgraded :
  importedSchemaVersion sample_v1_snapshot = 1%nat
  ∧ importWarns sample_v1_snapshot = true
  ∧ (importAllData 200 sample_v1_snapshot emptyDB).1 = Ok ()
  ∧ Habit.interval
      <$> (habits (importAllData 200 sample_v1_snapshot emptyDB).2 !! "h1")
    = Some None
  ∧ Habit.interval (upgradeHabit sample_v1_habit) = Some daily.
Proof. vm_compute. repeat split. Qed.

(* ===================================================================== *)
(** ** Habits and categories *)
(* ===================================================================== *)

(** What [createHabit] gets right: the identifier it returns was not in
    use, and the row filed under it is active and stamped with the clock. *)
Lemma createHabit_stored now fresh data db id :
  (createHabit now fresh data db).1 = Ok id →
  id = fresh
  ∧ habits db !! fresh = None
  ∧ ∃ h, habits (createHabit now fresh data db).2 !! fresh = Some h
         ∧ Habit.id h = fresh
         ∧ Habit.categoryId h = HabitData.categoryId data
         ∧ Habit.isActive h = true
         ∧ Habit.createdAt h = now.
Proof.
  unfold createHabit, add, store. simpl.
  destruct (habits db !! fresh) eqn:Hfresh; simpl; [done|].
  intros [= <-]. split; [done|]. split; [done|].
  eexists. rewrite lookup_insert_eq. by split.
Qed.

(** C3, the code after a reorder: the active habits of the category have
    orders 0 and 1, and the habit created next gets order 1, the order of
    the habit with the greatest identifier plus one, not 2. *)
Example createHabit_order_after_reorder :
  Habit.order <$> (habits sample_reordered_db !! "h1") = Some 1
  ∧ Habit.order <$> (habits sample_reordered_db !! "h2") = Some 0
  ∧ max_active_order SHUBH_HISAB_ID sample_reordered_db = Some 1
  ∧ (createHabit 40 "h3" sample_habit_data sample_reordered_db).1 = Ok "h3"
  ∧ Habit.order
      <$> (habits (createHabit 40 "h3" sample_habit_data
                     sample_reordered_db).2 !! "h3")
    = Some 1.
Proof. vm_compute. repeat split. Qed.

(** What [deleteCategory] gets right, first part: a fixed category is
    refused and nothing is committed. *)
Lemma deleteCategory_fixed_refused now id db c :
  categories db !! id = Some c → Category.isFixed c = true →
  deleteCategory_commits now id db = (Throw CannotDeleteFixedCategory, [])
  ∧ deleteCategory now id db = (Throw CannotDeleteFixedCategory, db).
Proof.
  intros Hc Hf. unfold deleteCategory, deleteCategory_commits, get.
  by rewrite Hc, Hf.
Qed.

(** Second part: otherwise the last commit has the category gone and every
    habit that pointed at it pointing at the positive fixed category. *)
Lemma deleteCategory_reassigns now id db :
  (∀ c, categories db !! id = Some c → Category.isFixed c = false) →
  ∃ db', deleteCategory now id db = (Ok (), db')
    ∧ categories db' = delete id (categories db)
    ∧ logEntries db' = logEntries db
    ∧ settings db' = settings db
    ∧ ∀ k, habits db' !! k
           = (λ h, if decide (Habit.categoryId h = id)
                   then Habit.set_categoryId SHUBH_HISAB_ID h else h)
             <$> habits db !! k.
Proof.
  intros Hnf.
  assert (match get id (categories db) with
          | Some c => Category.isFixed c
          | None => false
          end = false) as Hguard.
  { unfold get. destruct (categories db !! id) as [c|] eqn:Hc; [|done].
    by apply Hnf. }
  unfold deleteCategory, deleteCategory_commits. rewrite Hguard. simpl.
  eexists. split; [reflexivity|]. simpl. repeat (split; [done|]).
  intros k. unfold modify. rewrite lookup_fmap.
  destruct (habits db !! k) as [h|]; simpl; [|done].
  unfold bool_decide. by destruct (decide_rel eq (Habit.categoryId h) id).
Qed.

(** C5, the code on a user category that owns a habit: two commits, and
    the first one shows the habit already moved to the positive category
    while the deleted category is still there. *)
Example deleteCategory_intermediate_commit :
  ∃ db1 db2,
    deleteCategory_commits 9 "c1" sample_user_category_db
      = (Ok (), [db1; db2])
    ∧ Habit.categoryId <$> (habits sample_user_category_db !! "h1")
      = Some "c1"
    ∧ Habit.categoryId <$> (habits db1 !! "h1") = Some SHUBH_HISAB_ID
    ∧ Category.name <$> (categories db1 !! "c1") = Some "Seva"
    ∧ categories db2 !! "c1" = None
    ∧ Habit.categoryId <$> (habits db2 !! "h1") = Some SHUBH_HISAB_ID.
Proof. eexists _, _. vm_compute. repeat split. Qed.

Lemma flags_step_refl t : flags_step t t.
Proof. intros k. by destruct (t !! k). Qed.

Lemma flags_step_inv t t' : flags_step t t' → fixed_inv_t t → fixed_inv_t t'.
Proof.
  intros Hstep (Honly & (cs & Hs & Hsf & Hst) & (ca & Ha & Haf & Hat)).
  split; [|split].
  - intros k c' Hk Hf. specialize (Hstep k). rewrite Hk in Hstep.
    destruct (t !! k) as [c|] eqn:Hc; [|congruence].
    destruct Hstep as [Hfl _]. apply (Honly k c); congruence.
  - specialize (Hstep SHUBH_HISAB_ID). rewrite Hs in Hstep.
    destruct (t' !! SHUBH_HISAB_ID) as [c'|]; [|congruence].
    destruct Hstep as [Hfl Hty]. exists c'. split; [done|]. split; congruence.
  - specialize (Hstep ASHUBH_HISAB_ID). rewrite Ha in Hstep.
    destruct (t' !! ASHUBH_HISAB_ID) as [c'|]; [|congruence].
    destruct Hstep as [Hfl Hty]. exists c'. split; [done|]. split; congruence.
Qed.

Lemma flags_step_update now k f t :
  (∀ c, Category.isFixed (f c) = Category.isFixed c
        ∧ Category.hisabType (f c) = Category.hisabType c) →
  flags_step t (update categoriesSchema now k f t).
Proof.
  intros Hf j. unfold update. destruct (t !! k) as [c|] eqn:Hk; simpl.
  - destruct (decide (k = j)) as [<-|Hne].
    + rewrite lookup_insert_eq, Hk. apply Hf.
    + rewrite lookup_insert_ne by done. by destruct (t !! j).
  - by destruct (t !! j).
Qed.

Lemma reorder_from_inv now i ids t :
  fixed_inv_t t →
  fixed_inv_t (reorder_from categoriesSchema Category.set_order now i ids t).
Proof.
  revert i t. induction ids as [|k ids IH]; intros i t Hinv; [done|].
  simpl. apply IH. eapply flags_step_inv; [|done].
  by apply flags_step_update.
Qed.

Lemma exec_category_inv c db :
  keeps_fixed c →
  fixed_inv_t (categories db) →
  fixed_inv_t (categories (exec_category c db)).
Proof.
  intros Hkeep Hinv.
  destruct c as [now fresh data | now id p | now id | now ids]; simpl.
  - unfold createCategory, add, store. simpl.
    destruct (categories db !! fresh) eqn:Hfresh; simpl; [done|].
    eapply flags_step_inv; [|done]. intros k.
    destruct (decide (fresh = k)) as [<-|Hne].
    + by rewrite lookup_insert_eq, Hfresh.
    + rewrite lookup_insert_ne by done. by destruct (categories db !! k).
  - eapply flags_step_inv; [|done]. apply flags_step_update.
    intros c. destruct Hkeep as [Hp1 Hp2]. unfold CategoryPatch.apply. simpl.
    by rewrite Hp1, Hp2.
  - unfold deleteCategory, deleteCategory_commits, get.
    destruct (categories db !! id) as [c|] eqn:Hid; simpl.
    + destruct (Category.isFixed c) eqn:Hfix; simpl; [done|].
      eapply flags_step_inv; [|done]. intros k.
      destruct (decide (id = k)) as [<-|Hne].
      * by rewrite lookup_delete_eq, Hid.
      * rewrite lookup_delete_ne by done. by destruct (categories db !! k).
    + rewrite delete_id by done. done.
  - by apply reorder_from_inv.
Qed.

Lemma seed_fixed_inv now db :
  unseeded db → fixed_inv_t (categories (seedDefaultCategories now db).2).
Proof.
  intros Hun.
  assert (categories db !! SHUBH_HISAB_ID = None) as Hs.
  { destruct (categories db !! SHUBH_HISAB_ID) eqn:E; [|done].
    by destruct (Hun _ _ E) as (_ & ? & _). }
  assert (categories db !! ASHUBH_HISAB_ID = None) as Ha.
  { destruct (categories db !! ASHUBH_HISAB_ID) eqn:E; [|done].
    by destruct (Hun _ _ E) as (_ & _ & ?). }
  unfold seedDefaultCategories, get. rewrite Hs, Ha. simpl.
  unfold put, store. simpl. rewrite Hs.
  rewrite lookup_insert_ne by done. rewrite Ha. simpl.
  split; [|split].
  - intros k c Hk Hf.
    destruct (decide (ASHUBH_HISAB_ID = k)) as [<-|Hne1]; [by right|].
    destruct (decide (SHUBH_HISAB_ID = k)) as [<-|Hne2]; [by left|].
    rewrite !lookup_insert_ne in Hk by done.
    destruct (Hun _ _ Hk) as (Hnf & _). congruence.
  - eexists. rewrite lookup_insert_ne by done. rewrite lookup_insert_eq.
    by split.
  - eexists. rewrite lookup_insert_eq. by split.
Qed.

Lemma fixed_inv_pair db : fixed_inv_t (categories db) → fixed_pair db.
Proof.
  intros (Honly & (cs & Hs & Hsf & Hst) & (ca & Ha & Haf & Hat)).
  assert (dom (fixedCategories db)
          = ({[SHUBH_HISAB_ID; ASHUBH_HISAB_ID]} : gset string)) as Hdom.
  { apply set_eq. intros k. rewrite elem_of_dom. unfold fixedCategories.
    rewrite elem_of_union, !elem_of_singleton. split.
    - intros [c Hc]. apply map_lookup_filter_Some in Hc as [Hc Hf].
      by apply (Honly k c).
    - intros [-> | ->]; [exists cs | exists ca];
        by apply map_lookup_filter_Some. }
  split; [done|]. split.
  - rewrite <-size_dom, Hdom. by vm_compute.
  - rewrite Hs, Ha. simpl. by rewrite Hst, Hat.
Qed.

Lemma seed_noop now db :
  fixed_inv_t (categories db) → seedDefaultCategories now db = (Ok (), db).
Proof.
  intros (_ & (cs & Hs & _) & (ca & Ha & _)).
  unfold seedDefaultCategories, get. by rewrite Hs, Ha.
Qed.

Lemma run_category_inv cs db :
  Forall keeps_fixed cs →
  fixed_inv_t (categories db) →
  fixed_inv_t (categories (run_category cs db)).
Proof.
  unfold run_category. revert db.
  induction cs as [|c cs IH]; intros db Hkeep Hinv; [done|].
  apply Forall_cons in Hkeep as [Hc Hcs]. simpl.
  apply IH; [done|]. by apply exec_category_inv.
Qed.

(** C6, as the code has it. After seeding a store that was not seeded
    before, any sequence of [createCategory], [updateCategory],
    [deleteCategory] and [reorderCategories] calls whose patches leave
    [isFixed] and [hisabType] alone ends in a store with exactly two fixed
    categories, filed under the two reserved identifiers, one per group
    tag; and seeding that store again changes nothing. *)
Theorem fixed_pair_preserved now0 db0 cs :
  unseeded db0 →
  Forall keeps_fixed cs →
  fixed_pair (run_category cs (seedDefaultCategories now0 db0).2)
  ∧ ∀ now,
      seedDefaultCategories now
        (run_category cs (seedDefaultCategories now0 db0).2)
      = (Ok (), run_category cs (seedDefaultCategories now0 db0).2).
Proof.
  intros Hun Hkeep.
  assert (fixed_inv_t
            (categories (run_category cs (seedDefaultCategories now0 db0).2)))
    as Hinv by (by apply run_category_inv, seed_fixed_inv).
  split; [by apply fixed_inv_pair|]. intros now. by apply seed_noop.
Qed.

Lemma unseeded_empty : unseeded emptyDB.
Proof. intros k c H. simpl in H. by rewrite lookup_empty in H. Defined.

Lemma keeps_fixed_sample : Forall keeps_fixed sample_category_calls.
Proof. unfold sample_category_calls. repeat constructor. Defined.

Lemma fixed_pair_preserved_witness :
  unseeded emptyDB
  ∧ Forall keeps_fixed sample_category_calls
  ∧ fixed_pair
      (run_category sample_category_calls (seedDefaultCategories 1 emptyDB).2)
  ∧ Category.name
      <$> (categories
             (run_category sample_category_calls
                (seedDefaultCategories 1 emptyDB).2) !! "c1")
    = None.
Proof.
  split; [exact unseeded_empty|]. split; [exact keeps_fixed_sample|]. split.
  - apply (fixed_pair_preserved 1 emptyDB sample_category_calls
             unseeded_empty keeps_fixed_sample).
  - vm_compute. reflexivity.
Defined.

(** C6 as stated fails: [updateCategory] accepts a patch that sets
    [isFixed], after which three categories are fixed. *)
Lemma fixed_pair_update_counterexample :
  ¬ fixed_pair
      (run_category sample_flag_calls (seedDefaultCategories 1 emptyDB).2).
Proof. intros (_ & Hsize & _). vm_compute in Hsize. discriminate. Qed.

(* ===================================================================== *)
(** ** Export and import *)
(* ===================================================================== *)

Lemma seedDefaultCategories_ok now db : (seedDefaultCategories now db).1 = Ok ().
Proof.
  unfold seedDefaultCategories.
  by destruct (get SHUBH_HISAB_ID (categories db)),
              (get ASHUBH_HISAB_ID (categories db)).
Qed.

(** C4, as the code has it. A snapshot that lacks one of the four table
    arrays is rejected and the aborted transaction hands the store back
    unchanged; a snapshot that has the four arrays is imported, whatever
    else it lacks. *)
Theorem import_missing_table_rolls_back now data db :
  (missing_table data → importAllData now data db = (Throw TypeError, db))
  ∧ (¬ missing_table data → (importAllData now data db).1 = Ok ()).
Proof.
  unfold missing_table, importAllData.
  destruct (ExportData.categories data) as [cs|],
           (ExportData.habits data) as [hs|],
           (ExportData.logEntries data) as [ls|],
           (ExportData.settings data) as [ss|];
    (split; [intros Hm | intros Hm]);
    try reflexivity;
    try (exfalso; apply Hm; auto; fail);
    try (exfalso; destruct Hm as [?|[?|[?|?]]]; discriminate).
  apply seedDefaultCategories_ok.
Qed.

Lemma import_missing_table_rolls_back_witness :
  missing_table sample_truncated_snapshot
  ∧ importAllData 9 sample_truncated_snapshot sample_full_db
    = (Throw TypeError, sample_full_db)
  ∧ ¬ missing_table sample_headerless_snapshot
  ∧ (importAllData 9 sample_headerless_snapshot sample_full_db).1 = Ok ().
Proof.
  assert (missing_table sample_truncated_snapshot) as Hm
    by (right; right; left; reflexivity).
  assert (¬ missing_table sample_headerless_snapshot) as Hn
    by (intros [H|[H|[H|H]]]; discriminate H).
  split; [exact Hm|]. split.
  - exact (proj1 (import_missing_table_rolls_back 9
                    sample_truncated_snapshot sample_full_db) Hm).
  - split; [exact Hn|].
    exact (proj2 (import_missing_table_rolls_back 9
                    sample_headerless_snapshot sample_full_db) Hn).
Defined.

(** C4 as stated fails: a snapshot without [version], [schemaVersion] and
    [exportedAt] is not rejected; the import goes through and replaces the
    stored rows. *)
Lemma import_headerless_counterexample :
  missing_top_level sample_headerless_snapshot
  ∧ ¬ (∃ e, importAllData 9 sample_headerless_snapshot sample_full_db
            = (Throw e, sample_full_db))
  ∧ (importAllData 9 sample_headerless_snapshot sample_full_db).1 = Ok ()
  ∧ Habit.name <$> (habits sample_full_db !! "h1") = Some "Japa"
  ∧ habits (importAllData 9 sample_headerless_snapshot sample_full_db).2
      !! "h1" = None.
Proof.
  split; [by left|]. split.
  - intros [e He]. apply (f_equal fst) in He. vm_compute in He. discriminate.
  - vm_compute. repeat split.
Qed.

(** C8, as the code has it. On a store that holds both fixed categories,
    importing what was just exported succeeds and puts back every row of
    every table under its key; the [settings] rows are identical, and the
    rows of the other tables differ from the exported ones in the
    timestamps the [creating] hooks write: [createdAt], and for log
    entries also [updatedAt], now hold the time of the import. *)
Theorem roundtrip_restamps now now' db :
  wf_db db →
  is_Some (categories db !! SHUBH_HISAB_ID) →
  is_Some (categories db !! ASHUBH_HISAB_ID) →
  importAllData now' (exportAllData now db) db
  = (Ok (),
     mkDB (Category.set_createdAt now' <$> categories db)
          (Habit.set_createdAt now' <$> habits db)
          ((λ e, LogEntry.set_updatedAt now' (LogEntry.set_createdAt now' e))
             <$> logEntries db)
          (settings db)
          (verno db)).
Proof.
  intros (Hc & Hh & Hl & Hs) [cs Hcs] [ca Hca].
  unfold importAllData, exportAllData. simpl.
  rewrite (bulkPut_toArray categoriesSchema) by done.
  rewrite (bulkPut_toArray habitsSchema) by done.
  rewrite (bulkPut_toArray logEntriesSchema) by done.
  rewrite (bulkPut_toArray settingsSchema) by done.
  simpl. rewrite map_fmap_id.
  unfold seedDefaultCategories, get. simpl.
  by rewrite !lookup_fmap, Hcs, Hca.
Qed.

Lemma wf_db_sample_full : wf_db sample_full_db.
Proof.
  repeat split; apply map_Forall_to_list, Forall_forall; intros [k r];
    vm_compute; intros Hin;
    repeat (apply elem_of_cons in Hin as [Hin|Hin];
            [by injection Hin as -> ->|]);
    by apply elem_of_nil in Hin.
Defined.

Lemma roundtrip_restamps_witness :
  wf_db sample_full_db
  ∧ is_Some (categories sample_full_db !! SHUBH_HISAB_ID)
  ∧ is_Some (categories sample_full_db !! ASHUBH_HISAB_ID)
  ∧ dom (habits (importAllData 9 (exportAllData 8 sample_full_db)
                   sample_full_db).2)
    = dom (habits sample_full_db)
  ∧ settings (importAllData 9 (exportAllData 8 sample_full_db)
                sample_full_db).2
    = settings sample_full_db.
Proof.
  assert (is_Some (categories sample_full_db !! SHUBH_HISAB_ID)) as Hs
    by (vm_compute; eauto).
  assert (is_Some (categories sample_full_db !! ASHUBH_HISAB_ID)) as Ha
    by (vm_compute; eauto).
  split; [exact wf_db_sample_full|]. split; [exact Hs|]. split; [exact Ha|].
  rewrite (roundtrip_restamps 8 9 sample_full_db wf_db_sample_full Hs Ha).
  simpl. split; [apply dom_fmap_L | reflexivity].
Defined.

(** C8 as stated fails: on a seeded store at the current version the round
    trip does not give back the store it started from; the log entry
    written at time 4 comes back stamped with the time of the import. *)
Lemma roundtrip_counterexample :
  verno sample_full_db = CURRENT_DB_VERSION
  ∧ (importAllData 9 (exportAllData 8 sample_full_db) sample_full_db).2
    ≠ sample_full_db
  ∧ LogEntry.createdAt <$> (logEntries sample_full_db !! "e1") = Some 4
  ∧ LogEntry.createdAt
      <$> (logEntries (importAllData 9 (exportAllData 8 sample_full_db)
                         sample_full_db).2 !! "e1")
    = Some 9.
Proof.
  split; [reflexivity|]. split.
  - intros H.
    apply (f_equal (λ d, LogEntry.createdAt <$> (logEntries d !! "e1"))) in H.
    vm_compute in H. discriminate.
  - vm_compute. repeat split.
Qed.

(* ===================================================================== *)
(** ** Ordered listings *)
(* ===================================================================== *)

Lemma filter_fmap_comm {A B} (f : A → B) (P : B → Prop)
    `{!∀ x, Decision (P x)} (l : list A) :
  filter P (f <$> l) = f <$> filter (λ x, P (f x)) l.
Proof.
  induction l as [|x l IH]; [done|].
  rewrite fmap_cons, !filter_cons. simpl.
  destruct (decide (P (f x))); by rewrite IH.
Qed.

Lemma StronglySorted_filter_weaken {A} (R R' : relation A) (P : A → Prop)
    `{!∀ x, Decision (P x)} (l : list A) :
  (∀ x y, P x → P y → R x y → R' x y) →
  StronglySorted R l → StronglySorted R' (filter P l).
Proof.
  intros Himp. induction 1 as [|x l Hl IH Hx]; [constructor|].
  rewrite filter_cons. destruct (decide (P x)) as [HP|HP]; [|done].
  constructor; [done|]. apply Forall_forall. intros y Hy.
  apply list_elem_of_filter in Hy as [HPy Hy].
  apply Himp; [done..|]. by eapply Forall_forall in Hx.
Qed.


Section Listings.
Context {R : Type}.
Implicit Types (t : gmap string R) (l : list (string * R)).

Local Abbreviation key_le := (λ x y : string * R, String.le x.1 y.1).

Local Instance key_le_trans : Transitive key_le.
Proof. intros x y z Hxy Hyz. simpl in *. by etrans. Qed.

Local Instance key_le_total : Total key_le.
Proof. intros x y. simpl. apply (total String.le). Qed.

Lemma index_le_trans {I} (ile : relation I) `{!Transitive ile}
    (ix : R → I) : Transitive (index_le ile ix).
Proof.
  intros x y z [Hxy Kxy] [Hyz Kyz]. split; [by etrans|].
  intros Hzx. etrans; [apply Kxy | apply Kyz]; by etrans.
Qed.

Lemma index_le_total {I} (ile : relation I) `{!RelDecision ile, !Total ile}
    (ix : R → I) : Total (index_le ile ix).
Proof.
  intros x y. unfold index_le.
  destruct (decide (ile (ix x.2) (ix y.2))) as [Hxy|Hxy];
    destruct (decide (ile (ix y.2) (ix x.2))) as [Hyx|Hyx].
  - destruct (total String.le x.1 y.1); [left|right]; by split.
  - left. by split.
  - right. by split.
  - destruct (total ile (ix x.2) (ix y.2)); done.
Qed.

(** Two key-sorted listings of the same table are the same list. *)
Lemma sorted_listing_unique (Rel : relation (string * R)) t l1 l2 :
  (∀ x y, Rel x y → Rel y x → x.1 = y.1) →
  l1 ≡ₚ map_to_list t → l2 ≡ₚ map_to_list t →
  StronglySorted Rel l1 → StronglySorted Rel l2 → l1 = l2.
Proof.
  intros Hanti H1 H2 Hs1 Hs2.
  apply (StronglySorted_unique_strong Rel); [|done|done|by rewrite H1, H2].
  intros [k1 r1] [k2 r2] Hin1 Hin2 Hle Hge.
  rewrite H1 in Hin1. rewrite H2 in Hin2.
  apply elem_of_map_to_list in Hin1, Hin2.
  pose proof (Hanti _ _ Hle Hge) as Hk. simpl in Hk. subst k2. congruence.
Qed.

Lemma key_le_anti (x y : string * R) : key_le x y → key_le y x → x.1 = y.1.
Proof. simpl. intros. by apply (anti_symm String.le). Qed.

Lemma index_le_anti {I} (ile : relation I) (ix : R → I) (x y : string * R) :
  index_le ile ix x y → index_le ile ix y x → x.1 = y.1.
Proof.
  intros [Hxy Kxy] [Hyx Kyx]. apply (anti_symm String.le); auto.
Qed.

Lemma toArray_sorted (S : Schema R) t :
  StronglySorted key_le (merge_sort key_le (map_to_list t)).
Proof. apply StronglySorted_merge_sort; apply _. Qed.

Lemma orderBy_sorted {I} (ile : relation I)
    `{!RelDecision ile, !Transitive ile, !Total ile} (ix : R → I) t :
  StronglySorted (index_le ile ix)
    (merge_sort (index_le ile ix) (map_to_list t)).
Proof.
  apply StronglySorted_merge_sort;
    [by apply index_le_trans | by apply index_le_total].
Qed.

(** Any listing of the rows that is sorted by key is [toArray]. *)
Lemma toArray_unique (S : Schema R) t l :
  l ≡ₚ map_to_list t → StronglySorted key_le l → toArray t = l.*2.
Proof.
  intros Hp Hs. unfold toArray. f_equal.
  apply (sorted_listing_unique key_le t);
    [apply key_le_anti|apply merge_sort_Permutation|done| |done].
  by apply toArray_sorted.
Qed.

Lemma orderBy_unique {I} (ile : relation I)
    `{!RelDecision ile, !Transitive ile, !Total ile} (ix : R → I) t l :
  l ≡ₚ map_to_list t → StronglySorted (index_le ile ix) l →
  orderBy ile ix t = l.*2.
Proof.
  intros Hp Hs. unfold orderBy. f_equal.
  apply (sorted_listing_unique (index_le ile ix) t);
    [apply index_le_anti|apply merge_sort_Permutation|done| |done].
  by apply orderBy_sorted.
Qed.

(** Filtering the table by a predicate on rows and listing it is listing
    it and filtering the list. *)
Lemma toArray_filter (S : Schema R) (Q : R → Prop) `{!∀ r, Decision (Q r)} t :
  toArray (filter (λ kv : string * R, Q kv.2) t) = filter Q (toArray t).
Proof.
  unfold toArray at 2. rewrite filter_fmap_comm.
  apply (toArray_unique S).
  - rewrite merge_sort_Permutation.
    apply NoDup_Permutation;
      [apply NoDup_filter, NoDup_map_to_list | apply NoDup_map_to_list |].
    intros [k r]. rewrite list_elem_of_filter, !elem_of_map_to_list.
    rewrite map_lookup_filter_Some. simpl. tauto.
  - eapply StronglySorted_filter_weaken; [|by apply toArray_sorted].
    auto.
Qed.
End Listings.

(* ===================================================================== *)
(** ** Settings *)
(* ===================================================================== *)

(** X1. What [setSetting] writes is what [getSetting] reads back; every
    other key reads as before and the other tables are untouched. *)
Theorem setSetting_getSetting now key value db :
  getSetting key (setSetting now key value db).2 = Some value
  ∧ (∀ key', key' ≠ key →
       getSetting key' (setSetting now key value db).2 = getSetting key' db)
  ∧ categories (setSetting now key value db).2 = categories db
  ∧ habits (setSetting now key value db).2 = habits db
  ∧ logEntries (setSetting now key value db).2 = logEntries db.
Proof.
  assert (settings (setSetting now key value db).2
          = <[key := Setting.mk key value]> (settings db)) as Hs.
  { unfold setSetting, put, store. simpl.
    by destruct (settings db !! key). }
  unfold getSetting, get. rewrite Hs. split; [|split; [|done]].
  - by rewrite lookup_insert_eq.
  - intros key' Hne. by rewrite lookup_insert_ne.
Qed.






(* ===================================================================== *)
(** ** Archiving, enabling and deleting habits *)
(* ===================================================================== *)

Lemma sort_insert_Permutation {A} (key : A → Z) x (l : list A) :
  sort_insert key x l ≡ₚ x :: l.
Proof.
  induction l as [|y l IH]; [done|]. simpl.
  destruct (decide (key x ≤ key y)%Z); [done|].
  rewrite IH. apply Permutation_swap.
Qed.

Lemma stable_sort_Permutation {A} (key : A → Z) (l : list A) :
  stable_sort key l ≡ₚ l.
Proof.
  induction l as [|x l IH]; [done|]. unfold stable_sort in *. simpl.
  by rewrite sort_insert_Permutation, IH.
Qed.

Lemma elem_of_useHabits c db h :
  h ∈ useHabits c db
  ↔ (∃ k, habits db !! k = Some h)
    ∧ Habit.isActive h = true
    ∧ (truthy c = true → Habit.categoryId h = default "" c).
Proof.
  unfold useHabits, sortBy_order. destruct (truthy c) eqn:Hc.
  - rewrite stable_sort_Permutation, list_elem_of_filter,
      elem_of_where_equals, bool_decide_eq_true. tauto.
  - rewrite stable_sort_Permutation, list_elem_of_filter, elem_of_toArray.
    split; [intros [? ?]|intros (? & ? & _)]; by repeat split.
Qed.

(** X3. Archiving an active habit and enabling it again gives back the
    store: the two updates cancel, whatever the clock read. *)
Theorem enableHabit_archiveHabit now now' id db h :
  habits db !! id = Some h →
  Habit.isActive h = true →
  (enableHabit now' id (archiveHabit now id db).2).2 = db.
Proof.
  intros Hid Hact. unfold enableHabit, archiveHabit, update. simpl.
  rewrite Hid. simpl. rewrite lookup_insert_eq. simpl.
  rewrite insert_insert_eq.
  assert (habit_set_isActive true (habit_set_isActive false h) = h) as ->.
  { destruct h. simpl in *. by subst. }
  rewrite insert_id by done. by destruct db.
Qed.

Lemma enableHabit_archiveHabit_witness :
  Habit.isActive <$> (habits sample_full_db !! "h1") = Some true
  ∧ Habit.isActive
      <$> (habits (archiveHabit 5 "h1" sample_full_db).2 !! "h1")
    = Some false
  ∧ (enableHabit 6 "h1" (archiveHabit 5 "h1" sample_full_db).2).2
    = sample_full_db.
Proof.
  split; [vm_compute; reflexivity|]. split; [vm_compute; reflexivity|].
  eapply enableHabit_archiveHabit; vm_compute; reflexivity.
Defined.

(** X4. An archived habit leaves every [useHabits] listing, the other
    habits stay listed exactly as they were, and no log entry is touched. *)
Theorem archiveHabit_hides now id db :
  wf_table habitsSchema (habits db) →
  logEntries (archiveHabit now id db).2 = logEntries db
  ∧ ∀ c h, h ∈ useHabits c (archiveHabit now id db).2
           ↔ h ∈ useHabits c db ∧ Habit.id h ≠ id.
Proof.
  intros Hwf. split; [done|]. intros c h. rewrite !elem_of_useHabits.
  unfold archiveHabit, update. simpl.
  destruct (habits db !! id) as [h0|] eqn:Hid; simpl.
  - split.
    + intros ([k Hk] & Hact & Hc).
      destruct (decide (id = k)) as [<-|Hne].
      * rewrite lookup_insert_eq in Hk. injection Hk as <-. done.
      * rewrite lookup_insert_ne in Hk by done.
        pose proof (wf_lookup _ _ _ _ Hwf Hk) as Hpk. simpl in Hpk.
        split; [eauto|congruence].
    + intros (([k Hk] & Hact & Hc) & Hne).
      pose proof (wf_lookup _ _ _ _ Hwf Hk) as Hpk. simpl in Hpk.
      split; [|done]. exists k. rewrite lookup_insert_ne by congruence. done.
  - split; [|tauto]. intros ([k Hk] & Hact & Hc).
    pose proof (wf_lookup _ _ _ _ Hwf Hk) as Hpk. simpl in Hpk.
    split; [eauto|congruence].
Qed.

Lemma archiveHabit_hides_witness :
  wf_table habitsSchema (habits sample_full_db)
  ∧ Habit.id <$> useHabits None sample_full_db = ["h1"]
  ∧ useHabits None (archiveHabit 5 "h1" sample_full_db).2 = [].
Proof.
  assert (wf_table habitsSchema (habits sample_full_db)) as Hwf
    by apply wf_db_sample_full.
  split; [exact Hwf|]. split; [vm_compute; reflexivity|].
  destruct (useHabits None (archiveHabit 5 "h1" sample_full_db).2)
    as [|h l] eqn:E; [reflexivity|].
  assert (h ∈ useHabits None (archiveHabit 5 "h1" sample_full_db).2) as Hin
    by (rewrite E; left).
  apply (proj2 (archiveHabit_hides 5 "h1" sample_full_db Hwf)) in Hin
    as [Hin Hne].
  exfalso. apply Hne. revert Hin. vm_compute. intros Hin.
  apply elem_of_cons in Hin as [->|Hin]; [reflexivity|].
  by apply elem_of_nil in Hin.
Defined.

Lemma filter_none {A} (P : A → Prop) `{!∀ x, Decision (P x)} (l : list A) :
  (∀ x, x ∈ l → ¬ P x) → filter P l = [].
Proof.
  induction l as [|x l IH]; intros Hno; [done|].
  rewrite filter_cons_False by (apply Hno; left).
  apply IH. intros y Hy. apply Hno. by right.
Qed.

(** X5. [deleteHabit(id, true)] removes the habit and every log entry of
    it, and the entries of every other habit are listed as before;
    [deleteHabit(id, false)] removes the habit and keeps all entries. *)
Theorem deleteHabit_cascade id db :
  habits (deleteHabit id true db).2 = delete id (habits db)
  ∧ getLogEntriesForHabit id None None (deleteHabit id true db).2 = []
  ∧ (∀ other s e, other ≠ id →
       getLogEntriesForHabit other s e (deleteHabit id true db).2
       = getLogEntriesForHabit other s e db)
  ∧ habits (deleteHabit id false db).2 = delete id (habits db)
  ∧ logEntries (deleteHabit id false db).2 = logEntries db.
Proof.
  split; [done|]. split; [|split; [|done]].
  - unfold getLogEntriesForHabit, deleteHabit, where_equals. simpl.
    pose proof (toArray_filter logEntriesSchema
                  (λ r, LogEntry.habitId r ≠ id) (logEntries db)) as Hf.
    simpl in Hf. rewrite Hf. rewrite list_filter_filter.
    apply filter_none. intros x _ [Hx1 Hx2].
    by apply bool_decide_eq_true in Hx1.
  - intros other s e Hne.
    assert (where_equals (λ x, bool_decide (LogEntry.habitId x = other))
              (logEntries (deleteHabit id true db).2)
            = where_equals (λ x, bool_decide (LogEntry.habitId x = other))
                (logEntries db)) as Heq.
    { unfold deleteHabit, where_equals. simpl.
      pose proof (toArray_filter logEntriesSchema
                    (λ r, LogEntry.habitId r ≠ id) (logEntries db)) as Hf.
      simpl in Hf. rewrite Hf.
      apply list_filter_filter_l. intros x Hx.
      apply bool_decide_eq_true in Hx. congruence. }
    unfold getLogEntriesForHabit. by rewrite Heq.
Qed.

(* ===================================================================== *)
(** ** Reordering *)
(* ===================================================================== *)

Section Reorder.
Context {R : Type} (S : Schema R) (set_order : Z → R → R).
Hypothesis updating_id : ∀ now r, updating S now r = r.

Lemma update_lookup now k f (t : gmap string R) j :
  update S now k f t !! j
  = if decide (k = j) then f <$> t !! j else t !! j.
Proof.
  unfold update. destruct (decide (k = j)) as [<-|Hne].
  - destruct (t !! k) eqn:Hk; simpl; [|done].
    by rewrite lookup_insert_eq, updating_id.
  - destruct (t !! k); [by rewrite lookup_insert_ne|done].
Qed.

Lemma reorder_from_other now i ids (t : gmap string R) k :
  k ∉ ids → reorder_from S set_order now i ids t !! k = t !! k.
Proof.
  revert i t. induction ids as [|k0 ids IH]; intros i t Hk; [done|].
  apply not_elem_of_cons in Hk as [Hne Hk]. simpl.
  rewrite IH by done. rewrite update_lookup. by rewrite decide_False.
Qed.

Lemma reorder_from_listed now i ids (t : gmap string R) j k :
  NoDup ids → ids !! j = Some k →
  reorder_from S set_order now i ids t !! k
  = set_order (Z.of_nat (i + j)) <$> t !! k.
Proof.
  revert i t j. induction ids as [|k0 ids IH]; intros i t j Hnd Hj; [done|].
  apply NoDup_cons in Hnd as [Hk0 Hnd]. simpl. destruct j as [|j]; simpl in Hj.
  - injection Hj as ->. rewrite reorder_from_other by done.
    rewrite update_lookup, decide_True by done. by rewrite Nat.add_0_r.
  - rewrite (IH _ _ j) by done. rewrite update_lookup.
    assert (k0 ≠ k) as Hne.
    { intros ->. apply Hk0. by eapply list_elem_of_lookup_2. }
    rewrite decide_False by done. do 3 f_equal. lia.
Qed.

Lemma reorder_from_dom now i ids (t : gmap string R) :
  dom (reorder_from S set_order now i ids t) = dom t.
Proof.
  revert i t. induction ids as [|k0 ids IH]; intros i t; [done|].
  simpl. rewrite IH. apply set_eq. intros j.
  rewrite !elem_of_dom, update_lookup.
  destruct (decide (k0 = j)); [by rewrite fmap_is_Some|done].
Qed.
End Reorder.

(** X6. [reorderCategories] on a list without repetition gives every
    listed category its position as [order] and changes nothing else: the
    other fields of a listed row, the rows that are not listed, the set of
    rows and the other tables stay; a listed identifier that is not stored
    creates nothing. *)
Theorem reorderCategories_positions now ids db :
  NoDup ids →
  dom (categories (reorderCategories now ids db).2) = dom (categories db)
  ∧ (∀ i k, ids !! i = Some k →
       categories (reorderCategories now ids db).2 !! k
       = Category.set_order (Z.of_nat i) <$> categories db !! k)
  ∧ (∀ k, k ∉ ids →
       categories (reorderCategories now ids db).2 !! k = categories db !! k)
  ∧ habits (reorderCategories now ids db).2 = habits db
  ∧ logEntries (reorderCategories now ids db).2 = logEntries db
  ∧ settings (reorderCategories now ids db).2 = settings db.
Proof.
  intros Hnd. unfold reorderCategories. simpl.
  split; [by apply reorder_from_dom|]. split; [|split; [|done]].
  - intros i k Hi.
    by rewrite (reorder_from_listed categoriesSchema _ (λ _ _, eq_refl)
                  now 0 ids _ i k).
  - intros k Hk. by apply reorder_from_other.
Qed.

Lemma reorderCategories_positions_witness :
  NoDup ["c1"; ASHUBH_HISAB_ID; SHUBH_HISAB_ID; "nowhere"]
  ∧ Category.order
      <$> (categories
             (reorderCategories 9
                ["c1"; ASHUBH_HISAB_ID; SHUBH_HISAB_ID; "nowhere"]
                sample_user_category_db).2 !! SHUBH_HISAB_ID)
    = Some 2
  ∧ categories
      (reorderCategories 9 ["c1"; ASHUBH_HISAB_ID; SHUBH_HISAB_ID; "nowhere"]
         sample_user_category_db).2 !! "nowhere"
    = None.
Proof.
  assert (NoDup ["c1"; ASHUBH_HISAB_ID; SHUBH_HISAB_ID; "nowhere"]) as Hnd
    by (apply (bool_decide_unpack _); vm_compute; exact I).
  destruct (reorderCategories_positions 9 _ sample_user_category_db Hnd)
    as (_ & Hpos & _).
  split; [exact Hnd|]. split.
  - rewrite (Hpos 2%nat SHUBH_HISAB_ID eq_refl). vm_compute. reflexivity.
  - rewrite (Hpos 3%nat "nowhere" eq_refl). vm_compute. reflexivity.
Defined.

(** A listing whose rows carry their positions as order is sorted. *)
Lemma positions_sorted {R} (ix : R → Z) (i0 : nat) (l : list (string * R)) :
  (∀ j x, l !! j = Some x → ix x.2 = Z.of_nat (i0 + j)) →
  StronglySorted (index_le Z.le ix) l.
Proof.
  revert i0. induction l as [|x l IH]; intros i0 Hpos; [constructor|].
  constructor.
  - apply (IH (Datatypes.S i0)). intros j y Hy.
    rewrite (Hpos (Datatypes.S j) y Hy). f_equal. lia.
  - apply Forall_forall. intros y Hy.
    apply list_elem_of_lookup in Hy as [j Hj].
    pose proof (Hpos 0%nat x eq_refl) as Hx.
    pose proof (Hpos (Datatypes.S j) y Hj) as Hy'.
    split; [lia|]. intros Hle. lia.
Qed.

(** X7. When the list names every stored category once, the listing
    [useCategories] shows after [reorderCategories] is that list. *)
Theorem reorderCategories_listing now ids db :
  wf_table categoriesSchema (categories db) →
  NoDup ids →
  (∀ k, k ∈ ids ↔ is_Some (categories db !! k)) →
  Category.id <$> useCategories (reorderCategories now ids db).2 = ids.
Proof.
  intros Hwf Hnd Hall.
  destruct (reorderCategories_positions now ids db Hnd)
    as (Hdom & Hpos & _).
  set (t' := categories (reorderCategories now ids db).2) in *.
  set (l := (λ k, (k, t' !!! k)) <$> ids).
  assert (∀ j k, ids !! j = Some k →
            ∃ c, categories db !! k = Some c
                 ∧ t' !! k = Some (Category.set_order (Z.of_nat j) c)) as Hrow.
  { intros j k Hj. destruct (proj1 (Hall k)) as [c Hc];
      [by eapply list_elem_of_lookup_2|].
    exists c. split; [done|]. by rewrite (Hpos j k Hj), Hc. }
  assert (l.*1 = ids) as Hfst.
  { unfold l. rewrite <-list_fmap_compose. apply list_fmap_id. }
  assert (l ≡ₚ map_to_list t') as Hperm.
  { apply NoDup_Permutation.
    - apply (NoDup_fmap_1 fst). by rewrite Hfst.
    - apply NoDup_map_to_list.
    - intros [k c]. rewrite elem_of_map_to_list. unfold l.
      rewrite list_elem_of_fmap. split.
      + intros (k' & [= -> ->] & Hk').
        apply list_elem_of_lookup in Hk' as [j Hj].
        destruct (Hrow j k' Hj) as (c & _ & Hc).
        by rewrite (lookup_total_correct _ _ _ Hc).
      + intros Hc. exists k. rewrite (lookup_total_correct _ _ _ Hc).
        split; [done|]. apply Hall. apply elem_of_dom. rewrite <-Hdom.
        apply elem_of_dom. eauto. }
  unfold useCategories.
  rewrite (orderBy_unique Z.le Category.order t' l Hperm).
  - etrans; [|exact Hfst]. rewrite <-!list_fmap_compose.
    apply list_fmap_ext. intros j [k c] Hj. simpl.
    assert ((k, c) ∈ map_to_list t') as Hin
      by (rewrite <-Hperm; by eapply list_elem_of_lookup_2).
    apply elem_of_map_to_list in Hin. unfold t' in Hin.
    apply list_elem_of_lookup_2 in Hj. unfold l in Hj.
    apply list_elem_of_fmap in Hj as (k' & [= <- ->] & Hk').
    apply list_elem_of_lookup in Hk' as [j' Hj'].
    destruct (Hrow j' k Hj') as (c0 & Hc0 & Hc).
    rewrite (lookup_total_correct _ _ _ Hc). simpl.
    by apply (wf_lookup categoriesSchema _ _ _ Hwf Hc0).
  - apply (positions_sorted Category.order 0). intros j [k c] Hj. simpl.
    unfold l in Hj. rewrite list_lookup_fmap in Hj.
    destruct (ids !! j) as [k'|] eqn:Hk'; [|done]. simpl in Hj.
    injection Hj as <- <-.
    destruct (Hrow j k' Hk') as (c0 & _ & Hc).
    by rewrite (lookup_total_correct _ _ _ Hc).
Qed.

Lemma wf_sample_user_categories :
  wf_table categoriesSchema (categories sample_user_category_db).
Proof.
  apply map_Forall_to_list, Forall_forall. intros [k r].
  vm_compute. intros Hin.
  repeat (apply elem_of_cons in Hin as [Hin|Hin];
          [by injection Hin as -> ->|]).
  by apply elem_of_nil in Hin.
Defined.

Lemma reorderCategories_listing_witness :
  wf_table categoriesSchema (categories sample_user_category_db)
  ∧ NoDup ["c1"; ASHUBH_HISAB_ID; SHUBH_HISAB_ID]
  ∧ Category.id <$> useCategories sample_user_category_db
    = [SHUBH_HISAB_ID; ASHUBH_HISAB_ID; "c1"]
  ∧ Category.id
      <$> useCategories
            (reorderCategories 9 ["c1"; ASHUBH_HISAB_ID; SHUBH_HISAB_ID]
               sample_user_category_db).2
    = ["c1"; ASHUBH_HISAB_ID; SHUBH_HISAB_ID].
Proof.
  assert (NoDup ["c1"; ASHUBH_HISAB_ID; SHUBH_HISAB_ID]) as Hnd
    by (apply (bool_decide_unpack _); vm_compute; exact I).
  assert (dom (categories sample_user_category_db)
          = list_to_set ["c1"; ASHUBH_HISAB_ID; SHUBH_HISAB_ID]) as Hdom
    by (vm_compute; reflexivity).
  split; [exact wf_sample_user_categories|]. split; [exact Hnd|].
  split; [vm_compute; reflexivity|].
  apply (reorderCategories_listing 9 _ sample_user_category_db
           wf_sample_user_categories Hnd).
  intros k. by rewrite <-elem_of_dom, Hdom, elem_of_list_to_set.
Defined.

(* ===================================================================== *)
(** ** Creating a category *)
(* ===================================================================== *)



(* ===================================================================== *)
(** ** Log queries *)
(* ===================================================================== *)

(** X9. The entries of one day, read through the [date] index with
    [equals], are the range scan with both bounds on that day: the same
    rows in the same order. *)
Theorem getLogEntriesForDate_range date db :
  getLogEntriesForDate date db = getLogEntriesInRange date date db.
Proof.
  unfold getLogEntriesForDate, getLogEntriesInRange, where_equals, toArray,
    orderBy.
  rewrite decide_True by done. rewrite !filter_fmap_comm. f_equal.
  set (M := map_to_list (logEntries db)).
  set (P := λ x : string * LogEntry.t, LogEntry.date x.2 = date).
  rewrite (list_filter_iff _ P) by (intros x; apply bool_decide_eq_true).
  rewrite (list_filter_iff (λ x, String.le date (LogEntry.date x.2)
                                 ∧ String.le (LogEntry.date x.2) date) P).
  2:{ intros x. unfold P. split.
      - intros [H1 H2]. by apply (anti_symm String.le).
      - intros ->. done. }
  apply (StronglySorted_unique_strong
           (λ x y : string * LogEntry.t, String.le x.1 y.1)).
  - intros [k1 e1] [k2 e2] H1 H2 Hle Hge. simpl in *.
    apply list_elem_of_filter in H1 as [_ H1].
    apply list_elem_of_filter in H2 as [_ H2].
    rewrite merge_sort_Permutation in H1, H2. unfold M in H1, H2.
    apply elem_of_map_to_list in H1, H2.
    assert (k1 = k2) as -> by by apply (anti_symm String.le). congruence.
  - eapply StronglySorted_filter_weaken; [|by apply toArray_sorted]. auto.
  - eapply StronglySorted_filter_weaken;
      [|apply (orderBy_sorted String.le LogEntry.date)].
    intros x y Hx Hy [_ Hk]. apply Hk. unfold P in Hx, Hy.
    by rewrite Hx, Hy.
  - by rewrite !merge_sort_Permutation.
Qed.

(** X10. With two non-empty bounds [getLogEntriesForHabit] returns the
    rows of the range scan that belong to the habit; a bound that is
    missing or the empty string switches the date filter off altogether,
    even when the other bound is given. *)
Theorem getLogEntriesForHabit_bounds habitId db :
  (∀ a b e, a ≠ "" → b ≠ "" →
     e ∈ getLogEntriesForHabit habitId (Some a) (Some b) db
     ↔ e ∈ getLogEntriesInRange a b db ∧ LogEntry.habitId e = habitId)
  ∧ (∀ e, e ∈ getLogEntriesForHabit habitId None None db
          ↔ (∃ k, logEntries db !! k = Some e) ∧ LogEntry.habitId e = habitId)
  ∧ (∀ a, getLogEntriesForHabit habitId a None db
          = getLogEntriesForHabit habitId None None db)
  ∧ (∀ b, getLogEntriesForHabit habitId None b db
          = getLogEntriesForHabit habitId None None db)
  ∧ (∀ a, getLogEntriesForHabit habitId a (Some "") db
          = getLogEntriesForHabit habitId None None db)
  ∧ (∀ b, getLogEntriesForHabit habitId (Some "") b db
          = getLogEntriesForHabit habitId None None db).
Proof.
  split; [|split; [|split; [|split; [|split]]]].
  - intros a b e Ha Hb. unfold getLogEntriesForHabit.
    destruct a as [|c a]; [done|]. destruct b as [|c' b]; [done|]. simpl.
    rewrite list_elem_of_filter, elem_of_where_equals, bool_decide_eq_true,
      getLogEntriesInRange_spec. tauto.
  - intros e. unfold getLogEntriesForHabit. simpl.
    rewrite elem_of_where_equals, bool_decide_eq_true. tauto.
  - intros a. unfold getLogEntriesForHabit. simpl.
    by rewrite andb_false_r.
  - done.
  - intros a. unfold getLogEntriesForHabit. simpl.
    by rewrite andb_false_r.
  - done.
Qed.

(** X11. On a day that already has a row, [logHabit] rewrites [value],
    [note] and [updatedAt] of that row and nothing else: identifier,
    [createdAt] and, in particular, a [skippedReason] left by an earlier
    [skipHabit] stay. *)
Theorem logHabit_existing_frame now fresh h d v n db existing :
  wf_table logEntriesSchema (logEntries db) →
  getLogEntry h d db = Some existing →
  (logHabit now fresh h d v n db).1 = Ok (LogEntry.id existing)
  ∧ (logHabit now fresh h d v n db).2
    = set_logEntries
        (<[LogEntry.id existing :=
             LogEntry.mk (LogEntry.id existing) (LogEntry.habitId existing)
               (LogEntry.date existing) v n (LogEntry.skippedReason existing)
               (LogEntry.createdAt existing) now]> (logEntries db)) db.
Proof.
  intros Hwf Hget. unfold getLogEntry in Hget. unfold logHabit.
  rewrite Hget. simpl. split; [done|]. f_equal.
  apply head_where_Some in Hget as [_ [k Hk]].
  pose proof (wf_lookup _ _ _ _ Hwf Hk) as Hid. simpl in Hid. subst k.
  unfold update. by rewrite Hk.
Qed.

Lemma logHabit_existing_frame_witness :
  let db := (skipHabit 5 "e1" "h1" "2026-01-05" "fasting" freshDB).2 in
  wf_table logEntriesSchema (logEntries db)
  ∧ getLogEntry "h1" "2026-01-05" db
    = Some (LogEntry.mk "e1" "h1" "2026-01-05" (VBool false) None
              (Some "fasting") 5 5)
  ∧ logEntries (logHabit 6 "e2" "h1" "2026-01-05" (VBool true) None db).2
      !! "e1"
    = Some (LogEntry.mk "e1" "h1" "2026-01-05" (VBool true) None
              (Some "fasting") 5 6).
Proof.
  intros db.
  assert (wf_table logEntriesSchema (logEntries db)) as Hwf.
  { apply map_Forall_to_list, Forall_forall. intros [k e].
    vm_compute. intros Hin.
    repeat (apply elem_of_cons in Hin as [Hin|Hin];
            [by injection Hin as -> ->|]).
    by apply elem_of_nil in Hin. }
  assert (getLogEntry "h1" "2026-01-05" db
          = Some (LogEntry.mk "e1" "h1" "2026-01-05" (VBool false) None
                    (Some "fasting") 5 5)) as Hget
    by (vm_compute; reflexivity).
  split; [exact Hwf|]. split; [exact Hget|].
  destruct (logHabit_existing_frame 6 "e2" "h1" "2026-01-05" (VBool true)
              None db _ Hwf Hget) as [_ Hdb].
  rewrite Hdb. vm_compute. reflexivity.
Defined.

(** X12. Read your write: in a store that respects the natural key, a
    [logHabit] that returns is followed by [getLogEntry] finding, under the
    returned identifier, a row with the value and note just logged; a
    [logHabit] that is rejected changes nothing. *)
Theorem logHabit_read_back now fresh h d v n db :
  log_inv db →
  (∀ id, (logHabit now fresh h d v n db).1 = Ok id →
     ∃ e, getLogEntry h d (logHabit now fresh h d v n db).2 = Some e
          ∧ LogEntry.id e = id
          ∧ LogEntry.value e = v
          ∧ LogEntry.note e = n
          ∧ LogEntry.updatedAt e = now)
  ∧ (∀ err, (logHabit now fresh h d v n db).1 = Throw err →
       (logHabit now fresh h d v n db).2 = db).
Proof.
  intros Hinv.
  pose proof (exec_log_inv (CallLogHabit now fresh h d v n) db Hinv)
    as [Hwf' Hone']. simpl in Hwf', Hone'.
  assert (∀ k e, logEntries (logHabit now fresh h d v n db).2 !! k = Some e →
            same_pair h d e = true →
            getLogEntry h d (logHabit now fresh h d v n db).2 = Some e)
    as Hfind.
  { intros k e Hk Hp. unfold getLogEntry, where_habitId_date.
    destruct (head (where_equals (same_pair h d)
                      (logEntries (logHabit now fresh h d v n db).2)))
      as [e'|] eqn:Hhead.
    - apply head_where_Some in Hhead as [Hp' [k' Hk']].
      apply same_pair_true in Hp as [??]. apply same_pair_true in Hp' as [??].
      assert (k' = k) as -> by (eapply Hone'; [done..|congruence|congruence]).
      congruence.
    - pose proof (head_where_None _ _ _ _ Hhead Hk). congruence. }
  destruct Hinv as [Hwf Hone]. split.
  - intros id Hid. revert Hid Hfind. unfold logHabit.
    destruct (head (where_habitId_date h d (logEntries db)))
      as [existing|] eqn:Hhead; simpl.
    + intros [= <-] Hfind.
      apply head_where_Some in Hhead as [Hp [k Hk]].
      pose proof (wf_lookup _ _ _ _ Hwf Hk) as Hpk. simpl in Hpk. subst k.
      unfold update in Hfind |- *. rewrite Hk in Hfind |- *.
      simpl in Hfind |- *.
      exists (LogEntry.mk (LogEntry.id existing) (LogEntry.habitId existing)
                (LogEntry.date existing) v n (LogEntry.skippedReason existing)
                (LogEntry.createdAt existing) now).
      split; [|by repeat split].
      eapply Hfind; [apply lookup_insert_eq|].
      apply same_pair_true in Hp as [??]. by apply same_pair_true.
    + unfold add, store. simpl.
      destruct (logEntries db !! fresh) eqn:Hfresh; simpl; [done|].
      intros [= <-] Hfind. exists (LogEntry.mk fresh h d v n None now now).
      split; [|by repeat split].
      eapply Hfind; [apply lookup_insert_eq|]. by apply same_pair_true.
  - intros err. unfold logHabit.
    destruct (head (where_habitId_date h d (logEntries db))); simpl; [done|].
    by destruct (add _ _ _ _).
Qed.

Lemma logHabit_read_back_witness :
  log_inv emptyDB
  ∧ ∃ e, getLogEntry "h1" "2026-01-05"
           (logHabit 4 "e1" "h1" "2026-01-05" (VNum 108) (Some "dawn")
              emptyDB).2 = Some e
         ∧ LogEntry.id e = "e1"
         ∧ LogEntry.value e = VNum 108
         ∧ LogEntry.note e = Some "dawn"
         ∧ LogEntry.updatedAt e = 4.
Proof.
  split; [exact log_inv_empty|].
  apply (proj1 (logHabit_read_back 4 "e1" "h1" "2026-01-05" (VNum 108)
                  (Some "dawn") emptyDB log_inv_empty)).
  vm_compute. reflexivity.
Defined.

(* ===================================================================== *)
(** ** Seeding, clearing and opening *)
(* ===================================================================== *)

(** X13. Seeding only ever adds: every stored category stays as it is
    (also a reserved one whose fields were edited), habits and log entries
    are untouched, no setting other than [hasSeededCategories] changes,
    and afterwards both reserved identifiers are taken. *)
Theorem seedDefaultCategories_adds now db :
  (seedDefaultCategories now db).1 = Ok ()
  ∧ (∀ k c, categories db !! k = Some c →
            categories (seedDefaultCategories now db).2 !! k = Some c)
  ∧ (∀ k, k ≠ SHUBH_HISAB_ID → k ≠ ASHUBH_HISAB_ID →
          categories (seedDefaultCategories now db).2 !! k
          = categories db !! k)
  ∧ is_Some (categories (seedDefaultCategories now db).2 !! SHUBH_HISAB_ID)
  ∧ is_Some (categories (seedDefaultCategories now db).2 !! ASHUBH_HISAB_ID)
  ∧ habits (seedDefaultCategories now db).2 = habits db
  ∧ logEntries (seedDefaultCategories now db).2 = logEntries db
  ∧ (∀ key, key ≠ "hasSeededCategories" →
            settings (seedDefaultCategories now db).2 !! key
            = settings db !! key).
Proof.
  split; [apply seedDefaultCategories_ok|].
  unfold seedDefaultCategories, get, put, store. simpl.
  destruct (categories db !! SHUBH_HISAB_ID) as [cs|] eqn:Hs;
    destruct (categories db !! ASHUBH_HISAB_ID) as [ca|] eqn:Ha; simpl;
    rewrite ?Hs, ?Ha; simpl;
    rewrite ?lookup_insert_ne by done; rewrite ?Hs, ?Ha; simpl;
    (repeat split; intros; try done;
     try (destruct (settings db !! "hasSeededCategories"));
     repeat (rewrite lookup_insert_ne by (done || congruence));
     rewrite ?lookup_insert_eq; eauto).
Qed.

(** X14. [clearAllData] ends, whatever the store held, with exactly the
    two fixed categories as seeded at that moment, no habit, no log entry,
    and every setting back at its default except [hasSeededCategories],
    which reads [true]. *)
Theorem clearAllData_resets now db :
  (clearAllData now db).1 = Ok ()
  ∧ categories (clearAllData now db).2
    = <[ASHUBH_HISAB_ID := ashubhCategory now]>
        (<[SHUBH_HISAB_ID := shubhCategory now]> ∅)
  ∧ fixed_pair (clearAllData now db).2
  ∧ habits (clearAllData now db).2 = ∅
  ∧ logEntries (clearAllData now db).2 = ∅
  ∧ verno (clearAllData now db).2 = verno db
  ∧ ∀ key, getSetting key (clearAllData now db).2
           = if decide (key = "hasSeededCategories")
             then Some (SBool true)
             else DEFAULT_SETTINGS_VALUES !! key.
Proof.
  split; [apply seedDefaultCategories_ok|].
  split; [reflexivity|]. split; [|repeat (split; [reflexivity|])].
  - apply fixed_inv_pair, seed_fixed_inv.
    intros k c Hk. simpl in Hk. unfold clear in Hk.
    by rewrite lookup_empty in Hk.
  - intros key.
    assert (settings (clearAllData now db).2
            = <["hasSeededCategories" :=
                  Setting.mk "hasSeededCategories" (SBool true)]> ∅) as Hs
      by reflexivity.
    unfold getSetting, get. rewrite Hs.
    destruct (decide (key = "hasSeededCategories")) as [->|Hne].
    + by rewrite lookup_insert_eq.
    + rewrite lookup_insert_ne by done. by rewrite lookup_empty.
Qed.



Lemma getLogEntriesForHabit_bounds_witness :
  LogEntry.id
    <$> getLogEntriesForHabit "h1" (Some "2026-01-06") (Some "2026-01-08")
          (stored sample_entries)
  = ["e2"]
  ∧ LogEntry.id
      <$> getLogEntriesForHabit "h1" (Some "") (Some "2026-01-08")
            (stored sample_entries)
    = ["e1"; "e2"; "e3"]
  ∧ sample_entry "e2" "2026-01-07" (VNum 45)
    ∈ getLogEntriesForHabit "h1" (Some "2026-01-06") (Some "2026-01-08")
        (stored sample_entries).
Proof.
  split; [vm_compute; reflexivity|]. split; [vm_compute; reflexivity|].
  apply (proj1 (getLogEntriesForHabit_bounds "h1" (stored sample_entries))
           "2026-01-06" "2026-01-08"); [done|done|].
  split; [|reflexivity]. vm_compute. left.
Defined.

(* ===================================================================== *)
(** ** What an import leaves in the store *)
(* ===================================================================== *)

Lemma foldl_store_elem {R} (S : Schema R) (rs : list R) k r :
  foldl (λ acc x, store S x acc) ∅ rs !! k = Some r → r ∈ rs ∧ pk S r = k.
Proof.
  induction rs as [|x rs IH] using rev_ind.
  - simpl. by rewrite lookup_empty.
  - rewrite foldl_snoc. unfold store at 1.
    destruct (decide (pk S x = k)) as [<-|Hne].
    + rewrite lookup_insert_eq. intros [= <-]. split; [|done].
      apply elem_of_app. right. by apply list_elem_of_singleton.
    + rewrite lookup_insert_ne by done. intros Hk.
      destruct (IH Hk) as [Hin Hpk]. split; [|done].
      apply elem_of_app. by left.
Qed.

Lemma foldl_store_covers {R} (S : Schema R) (rs : list R) r :
  r ∈ rs → is_Some (foldl (λ acc x, store S x acc) ∅ rs !! pk S r).
Proof.
  induction rs as [|x rs IH] using rev_ind; [by intros ?%elem_of_nil|].
  rewrite foldl_snoc. unfold store at 1. intros Hin.
  destruct (decide (pk S x = pk S r)) as [->|Hne].
  - rewrite lookup_insert_eq. eauto.
  - rewrite lookup_insert_ne by done. apply IH.
    apply elem_of_app in Hin as [Hin|Hin]; [done|].
    apply list_elem_of_singleton in Hin. congruence.
Qed.

(** X16. A snapshot with the four arrays replaces the store: afterwards
    every habit and every log entry is a row of the snapshot, filed under
    its identifier and stamped with the time of the import, every row of
    the snapshot has its identifier taken, nothing of what was stored
    before is left in these tables, and both reserved categories exist. *)
Theorem importAllData_replaces now data db cs hs ls ss :
  ExportData.categories data = Some cs →
  ExportData.habits data = Some hs →
  ExportData.logEntries data = Some ls →
  ExportData.settings data = Some ss →
  (importAllData now data db).1 = Ok ()
  ∧ (∀ k h, habits (importAllData now data db).2 !! k = Some h →
       ∃ h0, h0 ∈ hs ∧ Habit.id h0 = k ∧ h = Habit.set_createdAt now h0)
  ∧ (∀ h0, h0 ∈ hs →
       is_Some (habits (importAllData now data db).2 !! Habit.id h0))
  ∧ (∀ k e, logEntries (importAllData now data db).2 !! k = Some e →
       ∃ e0, e0 ∈ ls ∧ LogEntry.id e0 = k
             ∧ e = LogEntry.set_updatedAt now (LogEntry.set_createdAt now e0))
  ∧ (∀ e0, e0 ∈ ls →
       is_Some (logEntries (importAllData now data db).2 !! LogEntry.id e0))
  ∧ is_Some (categories (importAllData now data db).2 !! SHUBH_HISAB_ID)
  ∧ is_Some (categories (importAllData now data db).2 !! ASHUBH_HISAB_ID)
  ∧ verno (importAllData now data db).2 = verno db.
Proof.
  intros Hcs Hhs Hls Hss. unfold importAllData.
  rewrite Hcs, Hhs, Hls, Hss.
  set (loaded := mkDB _ _ _ _ _).
  destruct (seedDefaultCategories_adds now loaded)
    as (Hok & _ & _ & Hshubh & Hashubh & Hh & Hl & _).
  split; [done|]. rewrite Hh, Hl.
  assert (verno (seedDefaultCategories now loaded).2 = verno db) as Hv.
  { unfold seedDefaultCategories.
    by destruct (get SHUBH_HISAB_ID (categories loaded)),
                (get ASHUBH_HISAB_ID (categories loaded)). }
  assert (habits loaded
          = foldl (λ acc x, store habitsSchema x acc) ∅
              (creating habitsSchema now <$> hs)) as ->
    by apply bulkPut_empty.
  assert (logEntries loaded
          = foldl (λ acc x, store logEntriesSchema x acc) ∅
              (creating logEntriesSchema now <$> ls)) as ->
    by apply bulkPut_empty.
  split_and!; try done.
  - intros k h Hk. apply foldl_store_elem in Hk as [Hin Hpk].
    apply list_elem_of_fmap in Hin as (h0 & -> & Hin). eauto.
  - intros h0 Hin.
    apply (foldl_store_covers habitsSchema
             (creating habitsSchema now <$> hs) (Habit.set_createdAt now h0)).
    apply list_elem_of_fmap. eauto.
  - intros k e Hk. apply foldl_store_elem in Hk as [Hin Hpk].
    apply list_elem_of_fmap in Hin as (e0 & -> & Hin). eauto.
  - intros e0 Hin.
    apply (foldl_store_covers logEntriesSchema
             (creating logEntriesSchema now <$> ls)
             (LogEntry.set_updatedAt now (LogEntry.set_createdAt now e0))).
    apply list_elem_of_fmap. eauto.
Qed.

Lemma importAllData_replaces_witness :
  (importAllData 200 sample_v1_snapshot sample_full_db).1 = Ok ()
  ∧ habits (importAllData 200 sample_v1_snapshot sample_full_db).2 !! "h1"
    = Some (Habit.set_createdAt 200 sample_v1_habit)
  ∧ logEntries (importAllData 200 sample_v1_snapshot sample_full_db).2 = ∅.
Proof.
  destruct (importAllData_replaces 200 sample_v1_snapshot sample_full_db
              _ _ _ _ eq_refl eq_refl eq_refl eq_refl) as (Hok & _).
  split; [exact Hok|]. split; vm_compute; reflexivity.
Defined.

(* ===================================================================== *)
(** ** The daily view *)
(* ===================================================================== *)

Lemma sort_insert_sorted {A} (key : A → Z) x (l : list A) :
  StronglySorted (λ a b, (key a ≤ key b)%Z) l →
  StronglySorted (λ a b, (key a ≤ key b)%Z) (sort_insert key x l).
Proof.
  induction 1 as [|y l Hl IH Hy]; simpl; [repeat constructor|].
  destruct (decide (key x ≤ key y)%Z) as [Hle|Hgt].
  - constructor; [by constructor|]. constructor; [done|].
    eapply Forall_impl; [exact Hy|]. simpl. intros. lia.
  - constructor; [done|].
    rewrite sort_insert_Permutation. constructor; [lia|done].
Qed.

Lemma stable_sort_sorted {A} (key : A → Z) (l : list A) :
  StronglySorted (λ a b, (key a ≤ key b)%Z) (stable_sort key l).
Proof.
  induction l as [|x l IH]; [constructor|].
  unfold stable_sort in *. simpl. by apply sort_insert_sorted.
Qed.

Lemma getLogEntry_Some h d db e :
  log_inv db →
  getLogEntry h d db = Some e
  ↔ (∃ k, logEntries db !! k = Some e)
    ∧ LogEntry.habitId e = h ∧ LogEntry.date e = d.
Proof.
  intros [Hwf Hone]. unfold getLogEntry, where_habitId_date. split.
  - intros Hhead. apply head_where_Some in Hhead as [Hp Hk].
    by apply same_pair_true in Hp.
  - intros ([k Hk] & Hh & Hd).
    destruct (head (where_equals (same_pair h d) (logEntries db)))
      as [e'|] eqn:Hhead.
    + apply head_where_Some in Hhead as [Hp' [k' Hk']].
      apply same_pair_true in Hp' as [??].
      assert (k' = k) as -> by (eapply Hone; [done..|congruence|congruence]).
      congruence.
    + pose proof (head_where_None _ _ _ _ Hhead Hk) as Hf.
      apply same_pair_false in Hf. by destruct Hf.
Qed.

(** X17. The daily view pairs habits and entries correctly: in a store
    that respects the natural key, [useHabitsWithLogs] lists exactly the
    active habits (of the chosen fixed category, when one is chosen), in
    ascending [order], each with what [getLogEntry] finds for it on that
    day. *)
Theorem useHabitsWithLogs_join date hisabType db :
  log_inv db →
  (∀ habit log, (habit, log) ∈ useHabitsWithLogs date hisabType db →
     log = getLogEntry (Habit.id habit) date db)
  ∧ (∀ habit, habit ∈ (useHabitsWithLogs date hisabType db).*1
       ↔ (∃ k, habits db !! k = Some habit)
         ∧ Habit.isActive habit = true
         ∧ match hisabType with
           | Some shubh => Habit.categoryId habit = SHUBH_HISAB_ID
           | Some ashubh => Habit.categoryId habit = ASHUBH_HISAB_ID
           | None => True
           end)
  ∧ StronglySorted (λ a b, (Habit.order a ≤ Habit.order b)%Z)
      (useHabitsWithLogs date hisabType db).*1.
Proof.
  intros Hinv. unfold useHabitsWithLogs.
  set (S' := {| pk := LogEntry.habitId;
                creating := λ (_ : Date) (e : LogEntry.t), e;
                updating := λ (_ : Date) (e : LogEntry.t), e |}).
  set (logMap := foldl (λ m log, <[LogEntry.habitId log := log]> m) ∅
                   (getLogEntriesForDate date db)).
  assert (logMap = foldl (λ acc x, store S' x acc) ∅
                     (getLogEntriesForDate date db)) as HlogMap by done.
  assert (∀ e, e ∈ getLogEntriesForDate date db
               ↔ (∃ k, logEntries db !! k = Some e) ∧ LogEntry.date e = date)
    as Hlogs.
  { intros e. unfold getLogEntriesForDate.
    rewrite elem_of_where_equals, bool_decide_eq_true. tauto. }
  assert (∀ hid, logMap !! hid = getLogEntry hid date db) as Hjoin.
  { intros hid. destruct (logMap !! hid) as [e|] eqn:He.
    - rewrite HlogMap in He. apply foldl_store_elem in He as [Hin Hpk].
      apply Hlogs in Hin as [Hk Hd]. symmetry.
      by apply getLogEntry_Some.
    - destruct (getLogEntry hid date db) as [e|] eqn:Hget; [|done].
      apply getLogEntry_Some in Hget as (Hk & Hh & Hd); [|done].
      assert (e ∈ getLogEntriesForDate date db) as Hin by by apply Hlogs.
      apply (foldl_store_covers S') in Hin. rewrite <-HlogMap in Hin.
      simpl in Hin. rewrite Hh, He in Hin. by destruct Hin. }
  split; [|split].
  - intros habit log Hin. apply list_elem_of_fmap in Hin as (h' & [= -> ->] & _).
    apply Hjoin.
  - intros habit. rewrite <-list_fmap_compose.
    assert (∀ l : list Habit.t,
              (fst ∘ (λ habit, (habit, logMap !! Habit.id habit))) <$> l = l)
      as Hfst by (intros l; apply list_fmap_id).
    rewrite Hfst. unfold sortBy_order.
    destruct hisabType as [[|]|];
      rewrite stable_sort_Permutation, list_elem_of_filter, elem_of_toArray;
      tauto.
  - rewrite <-list_fmap_compose.
    assert (∀ l : list Habit.t,
              (fst ∘ (λ habit, (habit, logMap !! Habit.id habit))) <$> l = l)
      as Hfst by (intros l; apply list_fmap_id).
    rewrite Hfst. destruct hisabType as [[|]|]; apply stable_sort_sorted.
Qed.

Lemma log_inv_sample_full : log_inv sample_full_db.
Proof.
  apply (run_log_inv [CallLogHabit 4 "e1" "h1" "2026-01-05" (VNum 108) None]
           (createHabit 3 "h1" sample_habit_data
              (seedDefaultCategories 1 freshDB).2).2).
  assert (logEntries
            (createHabit 3 "h1" sample_habit_data
               (seedDefaultCategories 1 freshDB).2).2 = ∅) as Hl
    by reflexivity.
  split; rewrite Hl; [apply map_Forall_empty|].
  intros k1 k2 e1 e2 H1. by rewrite lookup_empty in H1.
Defined.

Lemma useHabitsWithLogs_join_witness :
  log_inv sample_full_db
  ∧ (λ p : Habit.t * option LogEntry.t,
       (Habit.id p.1, LogEntry.value <$> p.2))
      <$> useHabitsWithLogs "2026-01-05" (Some shubh) sample_full_db
    = [("h1", Some (VNum 108))]
  ∧ getLogEntry "h1" "2026-01-05" sample_full_db
    = Some (LogEntry.mk "e1" "h1" "2026-01-05" (VNum 108) None None 4 4).
Proof.
  split; [exact log_inv_sample_full|]. split; [vm_compute; reflexivity|].
  destruct (useHabitsWithLogs "2026-01-05" (Some shubh) sample_full_db)
    as [|[habit log] l] eqn:E; [by vm_compute in E|].
  assert ((habit, log)
          ∈ useHabitsWithLogs "2026-01-05" (Some shubh) sample_full_db) as Hin
    by (rewrite E; left).
  apply (proj1 (useHabitsWithLogs_join _ _ _ log_inv_sample_full)) in Hin.
  vm_compute in E. injection E as <- <- _. rewrite Hin. reflexivity.
Defined.

(* ===================================================================== *)
(** ** Reordering the habits of a category *)
(* ===================================================================== *)

Lemma positions_sorted_values {A} (key : A → Z) (i0 : nat) (l : list A) :
  (∀ j x, l !! j = Some x → key x = Z.of_nat (i0 + j)) →
  StronglySorted (λ a b, (key a ≤ key b)%Z) l.
Proof.
  revert i0. induction l as [|x l IH]; intros i0 Hpos; [constructor|].
  constructor.
  - apply (IH (Datatypes.S i0)). intros j y Hy.
    rewrite (Hpos (Datatypes.S j) y Hy). f_equal. lia.
  - apply Forall_forall. intros y Hy.
    apply list_elem_of_lookup in Hy as [j Hj].
    pose proof (Hpos 0%nat x eq_refl) as Hx.
    pose proof (Hpos (Datatypes.S j) y Hj) as Hy'. lia.
Qed.

(** X18. When the list names, once each, the active habits of a category,
    the listing [useHabits] shows for that category after [reorderHabits]
    is that list; the [_categoryId] argument plays no part. *)
Theorem reorderHabits_listing now c c' ids db :
  wf_table habitsSchema (habits db) →
  NoDup ids →
  c ≠ "" →
  (∀ k, k ∈ ids
        ↔ ∃ h, habits db !! k = Some h ∧ Habit.isActive h = true
               ∧ Habit.categoryId h = c) →
  Habit.id <$> useHabits (Some c) (reorderHabits now c' ids db).2 = ids.
Proof.
  intros Hwf Hnd Hc Hall.
  set (t' := habits (reorderHabits now c' ids db).2).
  assert (∀ j k, ids !! j = Some k →
            ∃ h, habits db !! k = Some h ∧ Habit.isActive h = true
                 ∧ Habit.categoryId h = c
                 ∧ t' !! k = Some (Habit.set_order (Z.of_nat j) h)) as Hrow.
  { intros j k Hj. destruct (proj1 (Hall k)) as (h & Hh & Ha & Hcat);
      [by eapply list_elem_of_lookup_2|].
    exists h. split_and!; try done. unfold t', reorderHabits. simpl.
    rewrite (reorder_from_listed habitsSchema _ (λ _ _, eq_refl)
               now 0 ids _ j k Hnd Hj). by rewrite Hh. }
  assert (∀ k, k ∉ ids → t' !! k = habits db !! k) as Hother.
  { intros k Hk. unfold t', reorderHabits. simpl.
    by apply (reorder_from_other habitsSchema _ (λ _ _, eq_refl)). }
  assert (wf_table habitsSchema t') as Hwf'.
  { intros k h' Hk. simpl. destruct (decide (k ∈ ids)) as [Hin|Hnin].
    - apply list_elem_of_lookup in Hin as [j Hj].
      destruct (Hrow j k Hj) as (h & Hh & _ & _ & Hh').
      rewrite Hh' in Hk. injection Hk as <-. simpl.
      exact (wf_lookup habitsSchema _ _ _ Hwf Hh).
    - rewrite (Hother k Hnin) in Hk.
      exact (wf_lookup habitsSchema _ _ _ Hwf Hk). }
  set (l0 := (λ k, t' !!! k) <$> ids).
  assert (∀ j x, l0 !! j = Some x →
            ∃ k h, ids !! j = Some k ∧ habits db !! k = Some h
                   ∧ Habit.isActive h = true ∧ Habit.categoryId h = c
                   ∧ x = Habit.set_order (Z.of_nat j) h) as Hl0.
  { intros j x Hx. unfold l0 in Hx. rewrite list_lookup_fmap in Hx.
    destruct (ids !! j) as [k|] eqn:Hk; [|done]. simpl in Hx.
    injection Hx as <-. destruct (Hrow j k Hk) as (h & Hh & Ha & Hcat & Hh').
    exists k, h. split_and!; try done.
    by rewrite (lookup_total_correct _ _ _ Hh'). }
  assert (Habit.id <$> l0 = ids) as Hids.
  { unfold l0. rewrite <-list_fmap_compose.
    rewrite <-(list_fmap_id ids) at 2. apply list_fmap_ext.
    intros j k Hj. simpl. destruct (Hrow j k Hj) as (h & Hh & _ & _ & Hh').
    rewrite (lookup_total_correct _ _ _ Hh'). simpl.
    exact (wf_lookup habitsSchema _ _ _ Hwf Hh). }
  assert (useHabits (Some c) (reorderHabits now c' ids db).2 ≡ₚ l0) as Hperm.
  { apply NoDup_Permutation.
    - unfold useHabits, sortBy_order. destruct c as [|a c]; [done|]. simpl.
      rewrite stable_sort_Permutation. apply NoDup_filter, NoDup_filter.
      apply (NoDup_fmap_1 (pk habitsSchema)).
      by apply toArray_keys_NoDup.
    - apply (NoDup_fmap_1 Habit.id). by rewrite Hids.
    - intros x. rewrite elem_of_useHabits. fold t'. split.
      + intros ([k Hk] & Ha & Hcat).
        assert (truthy (Some c) = true) as Ht by by destruct c.
        specialize (Hcat Ht). simpl in Hcat.
        destruct (decide (k ∈ ids)) as [Hin|Hnin].
        * unfold l0. apply list_elem_of_fmap. exists k.
          by rewrite (lookup_total_correct _ _ _ Hk).
        * exfalso. apply Hnin, Hall. exists x.
          by rewrite <-(Hother k Hnin).
      + intros Hx. apply list_elem_of_lookup in Hx as [j Hj].
        destruct (Hl0 j x Hj) as (k & h & Hk & Hh & Ha & Hcat & ->).
        destruct (Hrow j k Hk) as (h1 & Hh1 & _ & _ & Hh').
        assert (h1 = h) as -> by congruence.
        split; [eauto|]. by split. }
  etrans; [|exact Hids]. f_equal.
  apply (StronglySorted_unique_strong
           (λ a b, (Habit.order a ≤ Habit.order b)%Z)); [| | |done].
  - intros x1 x2 H1 H2 Hle Hge. rewrite Hperm in H1.
    apply list_elem_of_lookup in H1 as [j1 Hj1].
    apply list_elem_of_lookup in H2 as [j2 Hj2].
    destruct (Hl0 j1 x1 Hj1) as (k1 & h1 & Hk1 & _ & _ & _ & ->).
    destruct (Hl0 j2 x2 Hj2) as (k2 & h2 & Hk2 & _ & _ & _ & ->).
    simpl in Hle, Hge. assert (j1 = j2) as -> by lia. congruence.
  - unfold useHabits, sortBy_order. destruct c as [|a c]; [done|].
    apply stable_sort_sorted.
  - apply (positions_sorted_values Habit.order 0). intros j x Hj.
    by destruct (Hl0 j x Hj) as (k & h & _ & _ & _ & _ & ->).
Qed.

Lemma wf_sample_reordered :
  wf_table habitsSchema (habits sample_reordered_db).
Proof.
  apply map_Forall_to_list, Forall_forall. intros [k r].
  vm_compute. intros Hin.
  repeat (apply elem_of_cons in Hin as [Hin|Hin];
          [by injection Hin as -> ->|]).
  by apply elem_of_nil in Hin.
Defined.

Lemma reorderHabits_listing_witness :
  wf_table habitsSchema (habits sample_reordered_db)
  ∧ NoDup ["h1"; "h2"]
  ∧ Habit.id <$> useHabits (Some SHUBH_HISAB_ID) sample_reordered_db
    = ["h2"; "h1"]
  ∧ Habit.id
      <$> useHabits (Some SHUBH_HISAB_ID)
            (reorderHabits 50 "" ["h1"; "h2"] sample_reordered_db).2
    = ["h1"; "h2"].
Proof.
  assert (NoDup ["h1"; "h2"]) as Hnd
    by (apply (bool_decide_unpack _); vm_compute; exact I).
  split; [exact wf_sample_reordered|]. split; [exact Hnd|].
  split; [vm_compute; reflexivity|].
  apply (reorderHabits_listing 50 SHUBH_HISAB_ID "" _ sample_reordered_db
           wf_sample_reordered Hnd); [done|].
  intros k. split.
  - intros Hin.
    apply elem_of_cons in Hin as [->|Hin];
      [eexists; split; [vm_compute; reflexivity|by split]|].
    apply elem_of_cons in Hin as [->|Hin];
      [eexists; split; [vm_compute; reflexivity|by split]|].
    by apply elem_of_nil in Hin.
  - intros (h & Hh & _).
    assert (k ∈ dom (habits sample_reordered_db)) as Hdom
      by (apply elem_of_dom; eauto).
    assert (dom (habits sample_reordered_db) = list_to_set ["h1"; "h2"])
      as Hd by (vm_compute; reflexivity).
    rewrite Hd in Hdom. by apply elem_of_list_to_set in Hdom.
Defined.

(* ===================================================================== *)
(** ** Date keys sort like dates *)
(* ===================================================================== *)

Lemma string_app_cons c s t : String c s +:+ t = String c (s +:+ t).
Proof. reflexivity. Qed.

Lemma string_app_nil t : "" +:+ t = t.
Proof. reflexivity. Qed.

Lemma string_app_assoc s t u : (s +:+ t) +:+ u = s +:+ (t +:+ u).
Proof.
  induction s as [|c s IH]; [done|]. by rewrite !string_app_cons, IH.
Qed.

Lemma string_app_length s t :
  String.length (s +:+ t) = (String.length s + String.length t)%nat.
Proof.
  induction s as [|c s IH]; [done|]. rewrite string_app_cons. simpl.
  by rewrite IH.
Qed.

(** Prefixes of equal length are compared first. *)
Lemma compare_app a b s t :
  String.length a = String.length b →
  String.compare (a +:+ s) (b +:+ t)
  = match String.compare a b with
    | Eq => String.compare s t
    | c => c
    end.
Proof.
  revert b. induction a as [|x a IH]; intros [|y b] Hlen; try done.
  rewrite !string_app_cons. simpl. destruct (Ascii.compare x y); [|done..].
  apply IH. simpl in Hlen. lia.
Qed.

Lemma string_le_compare s t : String.le s t ↔ String.compare s t ≠ Gt.
Proof.
  unfold String.le, String.leb.
  destruct (String.compare s t); simpl; split; intros H; try done.
Qed.

(** Two-character numerals, checked over their whole range. *)
Lemma two_digits_compare a b :
  (10 ≤ a < 100)%Z → (10 ≤ b < 100)%Z →
  String.compare (String_of a) (String_of b) = Z.compare a b
  ∧ String.length (String_of a) = 2%nat.
Proof.
  intros Ha Hb.
  assert (Forall (λ a, Forall (λ b,
            String.compare (String_of a) (String_of b) = Z.compare a b
            ∧ String.length (String_of a) = 2%nat) (seqZ 10 90)) (seqZ 10 90))
    as Hall by (apply (bool_decide_unpack _); vm_compute; exact I).
  rewrite Forall_forall in Hall.
  assert (a ∈ seqZ 10 90) as Hina by (apply elem_of_seqZ; lia).
  specialize (Hall a Hina). rewrite Forall_forall in Hall.
  apply Hall. apply elem_of_seqZ. lia.
Qed.

Lemma padded_compare a b :
  (0 ≤ a < 100)%Z → (0 ≤ b < 100)%Z →
  String.compare (padStart 2 "0" (String_of a)) (padStart 2 "0" (String_of b))
  = Z.compare a b
  ∧ String.length (padStart 2 "0" (String_of a)) = 2%nat.
Proof.
  intros Ha Hb.
  assert (Forall (λ a, Forall (λ b,
            String.compare (padStart 2 "0" (String_of a))
              (padStart 2 "0" (String_of b)) = Z.compare a b
            ∧ String.length (padStart 2 "0" (String_of a)) = 2%nat)
            (seqZ 0 100)) (seqZ 0 100))
    as Hall by (apply (bool_decide_unpack _); vm_compute; exact I).
  rewrite Forall_forall in Hall.
  assert (a ∈ seqZ 0 100) as Hina by (apply elem_of_seqZ; lia).
  specialize (Hall a Hina). rewrite Forall_forall in Hall.
  apply Hall. apply elem_of_seqZ. lia.
Qed.

Lemma four_digits_split y :
  (1000 ≤ y < 10000)%Z →
  String_of y
  = String_of (y `div` 100) +:+ padStart 2 "0" (String_of (y `mod` 100)).
Proof.
  intros Hy.
  assert (Forall (λ y, String_of y
                       = String_of (y `div` 100)
                         +:+ padStart 2 "0" (String_of (y `mod` 100)))
            (seqZ 1000 9000))
    as Hall by (apply (bool_decide_unpack _); vm_compute; exact I).
  rewrite Forall_forall in Hall. apply Hall. apply elem_of_seqZ. lia.
Qed.

Lemma four_digits_compare y1 y2 :
  (1000 ≤ y1 < 10000)%Z → (1000 ≤ y2 < 10000)%Z →
  String.compare (String_of y1) (String_of y2) = Z.compare y1 y2
  ∧ String.length (String_of y1) = 4%nat.
Proof.
  intros H1 H2.
  rewrite (four_digits_split y1 H1), (four_digits_split y2 H2).
  assert (10 ≤ y1 `div` 100 < 100)%Z as Ha1
    by (split; [apply Z.div_le_lower_bound|apply Z.div_lt_upper_bound]; lia).
  assert (10 ≤ y2 `div` 100 < 100)%Z as Ha2
    by (split; [apply Z.div_le_lower_bound|apply Z.div_lt_upper_bound]; lia).
  assert (0 ≤ y1 `mod` 100 < 100)%Z as Hb1 by (apply Z.mod_pos_bound; lia).
  assert (0 ≤ y2 `mod` 100 < 100)%Z as Hb2 by (apply Z.mod_pos_bound; lia).
  destruct (two_digits_compare _ _ Ha1 Ha2) as [Hca Hla].
  destruct (two_digits_compare _ _ Ha2 Ha1) as [_ Hla2].
  destruct (padded_compare _ _ Hb1 Hb2) as [Hcb Hlb].
  split.
  - rewrite compare_app by congruence. rewrite Hca, Hcb.
    pose proof (Z.div_mod y1 100 ltac:(lia)) as E1.
    pose proof (Z.div_mod y2 100 ltac:(lia)) as E2.
    destruct (Z.compare_spec (y1 `div` 100) (y2 `div` 100));
      destruct (Z.compare_spec (y1 `mod` 100) (y2 `mod` 100));
      destruct (Z.compare_spec y1 y2); try reflexivity; lia.
  - by rewrite string_app_length, Hla, Hlb.
Qed.

Lemma formatDateKey_compare d1 d2 :
  in_key_range d1 → in_key_range d2 →
  String.compare (formatDateKey d1) (formatDateKey d2)
  = match Z.compare (getFullYear d1) (getFullYear d2) with
    | Eq => match Z.compare (getMonth d1) (getMonth d2) with
            | Eq => Z.compare (getDate d1) (getDate d2)
            | c => c
            end
    | c => c
    end.
Proof.
  intros (Hy1 & Hm1 & Hd1) (Hy2 & Hm2 & Hd2). unfold formatDateKey.
  destruct (four_digits_compare (getFullYear d1) (getFullYear d2))
    as [HcY HlY]; [lia..|].
  destruct (four_digits_compare (getFullYear d2) (getFullYear d1))
    as [_ HlY2]; [lia..|].
  destruct (padded_compare (getMonth d1 + 1) (getMonth d2 + 1))
    as [HcM HlM]; [lia..|].
  destruct (padded_compare (getMonth d2 + 1) (getMonth d1 + 1))
    as [_ HlM2]; [lia..|].
  destruct (padded_compare (getDate d1) (getDate d2)) as [HcD _]; [lia..|].
  assert (∀ r1 r2, String.compare ("-" +:+ r1) ("-" +:+ r2)
                   = String.compare r1 r2) as Hdash by reflexivity.
  rewrite compare_app by congruence. rewrite HcY, Hdash.
  rewrite compare_app by congruence. rewrite HcM, Hdash, HcD.
  rewrite (Z.add_comm (getMonth d1) 1), (Z.add_comm (getMonth d2) 1).
  rewrite Z.add_compare_mono_l. reflexivity.
Qed.

(** X19. For dates with a four-digit year the key [formatDateKey] makes
    has ten characters, two keys compare as strings the way their dates
    compare on the calendar, and different days give different keys. *)
Theorem formatDateKey_order d1 d2 :
  in_key_range d1 → in_key_range d2 →
  String.length (formatDateKey d1) = 10%nat
  ∧ (String.le (formatDateKey d1) (formatDateKey d2) ↔ date_le d1 d2)
  ∧ (formatDateKey d1 = formatDateKey d2 → d1 = d2).
Proof.
  intros H1 H2. pose proof (formatDateKey_compare d1 d2 H1 H2) as Hc.
  split; [|split].
  - destruct H1 as (Hy1 & Hm1 & Hd1). unfold formatDateKey.
    destruct (four_digits_compare (getFullYear d1) (getFullYear d1))
      as [_ HlY]; [lia..|].
    destruct (padded_compare (getMonth d1 + 1) (getMonth d1 + 1))
      as [_ HlM]; [lia..|].
    destruct (padded_compare (getDate d1) (getDate d1)) as [_ HlD]; [lia..|].
    rewrite !string_app_length, HlY, HlM, HlD. reflexivity.
  - rewrite string_le_compare, Hc. unfold date_le.
    destruct (Z.compare_spec (getFullYear d1) (getFullYear d2));
      destruct (Z.compare_spec (getMonth d1) (getMonth d2));
      destruct (Z.compare_spec (getDate d1) (getDate d2));
      split; intros; try done; try lia.
  - intros Heq. rewrite Heq in Hc.
    assert (String.compare (formatDateKey d2) (formatDateKey d2) = Eq) as He.
    { generalize (formatDateKey d2). intros s.
      induction s as [|c s IH]; [done|]. simpl.
      unfold Ascii.compare. by rewrite N.compare_refl. }
    rewrite He in Hc. destruct d1 as [y1 m1 x1], d2 as [y2 m2 x2].
    simpl in Hc.
    destruct (Z.compare_spec y1 y2); [|done..].
    destruct (Z.compare_spec m1 m2); [|done..].
    destruct (Z.compare_spec x1 x2); [|done..]. by subst.
Qed.

Lemma formatDateKey_order_witness :
  let d1 := {| getFullYear := 2025; getMonth := 11; getDate := 31 |} in
  let d2 := {| getFullYear := 2026; getMonth := 0; getDate := 5 |} in
  in_key_range d1 ∧ in_key_range d2
  ∧ formatDateKey d1 = "2025-12-31"
  ∧ formatDateKey d2 = "2026-01-05"
  ∧ String.le (formatDateKey d1) (formatDateKey d2).
Proof.
  intros d1 d2.
  assert (in_key_range d1) as H1 by (unfold in_key_range; simpl; lia).
  assert (in_key_range d2) as H2 by (unfold in_key_range; simpl; lia).
  split; [exact H1|]. split; [exact H2|].
  split; [vm_compute; reflexivity|]. split; [vm_compute; reflexivity|].
  apply (proj1 (proj2 (formatDateKey_order d1 d2 H1 H2))).
  left. simpl. lia.
Defined.

(* ===================================================================== *)
(** ** Sheets schema versioning *)
(* ===================================================================== *)

Lemma copy_columns_lookup (row : JsRow) (cols : list string) (acc : JsRow) col :
  foldl (λ upgraded c,
           match row !! c with
           | Some v => <[c := v]> upgraded
           | None => upgraded
           end) acc cols !! col
  = if decide (col ∈ cols)
    then match row !! col with Some v => Some v | None => acc !! col end
    else acc !! col.
Proof.
  revert acc. induction cols as [|c cols IH]; intros acc; [done|].
  simpl. rewrite IH. destruct (decide (c = col)) as [->|Hne].
  - rewrite (decide_True (P := col ∈ col :: cols)) by left.
    destruct (row !! col) as [v|] eqn:Hv;
      destruct (decide (col ∈ cols)); rewrite ?lookup_insert_eq; done.
  - assert ((match row !! c with
             | Some v => <[c := v]> acc
             | None => acc
             end) !! col = acc !! col) as ->.
    { destruct (row !! c); [|done]. by rewrite lookup_insert_ne. }
    destruct (decide (col ∈ cols)) as [Hin|Hnin].
    + by rewrite (decide_True (P := col ∈ c :: cols)) by by right.
    + by rewrite (decide_False (P := col ∈ c :: cols))
        by (intros [?|?]%elem_of_cons; done).
Qed.

Lemma fill_columns_lookup (defaults : JsRow) (cols : list string)
    (acc : JsRow) col :
  foldl (λ upgraded c,
           match upgraded !! c with
           | Some _ => upgraded
           | None => <[c := defaultOrNull defaults c]> upgraded
           end) acc cols !! col
  = match acc !! col with
    | Some v => Some v
    | None => if decide (col ∈ cols)
              then Some (defaultOrNull defaults col) else None
    end.
Proof.
  revert acc. induction cols as [|c cols IH]; intros acc.
  { simpl. by destruct (acc !! col). }
  simpl. rewrite IH. destruct (decide (c = col)) as [->|Hne].
  - rewrite (decide_True (P := col ∈ col :: cols)) by left.
    destruct (acc !! col) as [v|] eqn:Hv; [by rewrite Hv|].
    by rewrite lookup_insert_eq.
  - assert ((match acc !! c with
             | Some _ => acc
             | None => <[c := defaultOrNull defaults c]> acc
             end) !! col = acc !! col) as ->.
    { destruct (acc !! c); [done|]. by rewrite lookup_insert_ne. }
    destruct (acc !! col); [done|].
    destruct (decide (col ∈ cols)) as [Hin|Hnin].
    + by rewrite (decide_True (P := col ∈ c :: cols)) by by right.
    + by rewrite (decide_False (P := col ∈ c :: cols))
        by (intros [?|?]%elem_of_cons; done).
Qed.

Lemma upgradeSheetRow_lookup fromColumns toColumns defaults row col :
  upgradeSheetRow fromColumns toColumns defaults row !! col
  = match (if decide (col ∈ fromColumns) then row !! col else None) with
    | Some v => Some v
    | None => if decide (col ∈ toColumns)
              then Some (defaultOrNull defaults col) else None
    end.
Proof.
  unfold upgradeSheetRow.
  rewrite fill_columns_lookup, copy_columns_lookup, lookup_empty.
  destruct (decide (col ∈ fromColumns)); [|done]. by destruct (row !! col).
Qed.

(** X20. [upgradeSheetData] returns the data as it is unless the target
    version is newer. Otherwise every row is rebuilt: cells of columns the
    source version declares are kept, every column of the target version
    is present, filled with its default (or null) where the row had none,
    and everything else is dropped. Since only version 1 declares columns,
    upgrading to it from anything older keeps no cell at all. *)
Theorem upgradeSheetData_rows data fromVersion toVersion tableName :
  ((toVersion ≤ fromVersion)%Z →
     upgradeSheetData data fromVersion toVersion tableName = data)
  ∧ ((fromVersion < toVersion)%Z →
       length (upgradeSheetData data fromVersion toVersion tableName)
       = length data
       ∧ ∀ i row, data !! i = Some row →
           ∃ u, upgradeSheetData data fromVersion toVersion tableName !! i
                = Some u
             ∧ (∀ col v, col ∈ sheetColumns fromVersion tableName →
                         row !! col = Some v → u !! col = Some v)
             ∧ (∀ col, col ∈ sheetColumns toVersion tableName →
                       is_Some (u !! col))
             ∧ (∀ col, col ∈ sheetColumns toVersion tableName →
                       col ∉ sheetColumns fromVersion tableName
                       ∨ row !! col = None →
                       u !! col
                       = Some (defaultOrNull
                                 (sheetDefaults toVersion tableName) col))
             ∧ (∀ col, col ∉ sheetColumns fromVersion tableName →
                       col ∉ sheetColumns toVersion tableName →
                       u !! col = None)
             ∧ (toVersion = 1 →
                u = upgradeSheetRow [] (sheetColumns 1 tableName)
                      (sheetDefaults 1 tableName) ∅)).
Proof.
  unfold upgradeSheetData. split; intros Hv.
  - by rewrite decide_True.
  - rewrite decide_False by lia. split; [by rewrite length_fmap|].
    intros i row Hi. rewrite list_lookup_fmap, Hi. simpl.
    eexists. split; [reflexivity|]. split_and!.
    + intros col v Hin Hrow. rewrite upgradeSheetRow_lookup.
      by rewrite decide_True, Hrow.
    + intros col Hin. rewrite upgradeSheetRow_lookup.
      rewrite (decide_True (P := col ∈ sheetColumns toVersion tableName))
        by done.
      by destruct (if decide (col ∈ sheetColumns fromVersion tableName)
                   then row !! col else None).
    + intros col Hin Hno. rewrite upgradeSheetRow_lookup.
      rewrite (decide_True (P := col ∈ sheetColumns toVersion tableName))
        by done.
      destruct Hno as [Hno|Hno]; [by rewrite decide_False|].
      rewrite Hno. by destruct (decide _).
    + intros col Hn1 Hn2. rewrite upgradeSheetRow_lookup.
      by rewrite !decide_False.
    + intros ->. apply map_eq. intros col. rewrite !upgradeSheetRow_lookup.
      assert (sheetColumns fromVersion tableName = []) as ->.
      { unfold sheetColumns. rewrite decide_False; [done|lia]. }
      done.
Qed.

Lemma upgradeSheetData_rows_witness :
  upgradeSheetData [sample_sheet_row] 1 1 THabits = [sample_sheet_row]
  ∧ ∃ u, upgradeSheetData [sample_sheet_row] 0 1 THabits = [u]
         ∧ u !! "name" = Some JNull
         ∧ u !! "interval" = Some (JStr "daily")
         ∧ u !! "legacyColumn" = None.
Proof.
  split.
  - apply (proj1 (upgradeSheetData_rows [sample_sheet_row] 1 1 THabits)).
    lia.
  - eexists. split; [reflexivity|]. vm_compute. repeat split.
Defined.

Lemma omap_nil_iff {A B} (f : A → option B) (l : list A) :
  omap f l = [] ↔ ∀ x, x ∈ l → f x = None.
Proof.
  induction l as [|x l IH]; simpl.
  - split; [|done]. by intros _ x ?%elem_of_nil.
  - destruct (f x) eqn:Hx; simpl.
    + split; [done|]. intros H. specialize (H x ltac:(left)). congruence.
    + rewrite IH. split.
      * intros H y [->|Hy]%elem_of_cons; auto.
      * intros H y Hy. apply H. by right.
Qed.


(** X22. Data that [upgradeSheetData] has brought to a newer version
    passes [validateSchemaVersion] against that version's columns. *)
Theorem upgradeSheetData_validates data fromVersion toVersion tableName :
  (fromVersion < toVersion)%Z →
  validateSchemaVersion
    (upgradeSheetData data fromVersion toVersion tableName)
    (sheetColumns toVersion tableName) tableName
  = {| valid := true; errors := [] |}.
Proof.
  intros Hv.
  destruct (upgradeSheetData_rows data fromVersion toVersion tableName)
    as [_ Hrows]. destruct (Hrows Hv) as [Hlen Hrow].
  destruct (upgradeSheetData data fromVersion toVersion tableName)
    as [|u rest] eqn:E; [done|].
  destruct data as [|row data]; [done|].
  destruct (Hrow 0%nat row eq_refl) as (u' & [= <-] & _ & Hall & _).
  simpl.
  assert (omap (λ col, match u !! col with
                       | Some _ => None
                       | None => Some ("Missing column: " +:+ col)
                       end) (sheetColumns toVersion tableName) = []) as ->.
  { apply omap_nil_iff. intros col Hcol. by destruct (Hall col Hcol) as [v ->]. }
  done.
Qed.

Lemma upgradeSheetData_validates_witness :
  valid (validateSchemaVersion [sample_sheet_row] (sheetColumns 1 THabits)
           THabits) = false
  ∧ validateSchemaVersion (upgradeSheetData [sample_sheet_row] 0 1 THabits)
      (sheetColumns 1 THabits) THabits
    = {| valid := true; errors := [] |}.
Proof.
  split; [vm_compute; reflexivity|].
  apply upgradeSheetData_validates. lia.
Defined.



Section SheetRoundTrip.
Variable JSON_stringify : list JsValue → string.
Variable toISOString : Date → string.

End SheetRoundTrip.


(* ===================================================================== *)
(** ** Streaks *)
(* ===================================================================== *)

Section StreakFacts.
Variable getTime : string → option Z.
Variable setDateBack : Z → Z.
Hypothesis back_one_day : ∀ t, setDateBack t = (t - MS_PER_DAY)%Z.

Lemma streak_loop_chain entries days u n :
  Forall2 (λ e d, getTime (LogEntry.date e) = Some (d * MS_PER_DAY)%Z)
    entries days →
  gaps_ok u days →
  streak_loop getTime setDateBack entries (Some (u * MS_PER_DAY)%Z) n
  = (n + length days)%nat.
Proof.
  intros Hall. revert u n.
  induction Hall as [|e d entries days He Hall IH]; intros u n Hgaps.
  - simpl. lia.
  - destruct Hgaps as [Hgap Hrest]. simpl. rewrite He.
    replace (u * MS_PER_DAY - d * MS_PER_DAY)%Z
      with ((u - d) * MS_PER_DAY)%Z by lia.
    rewrite Z.div_mul by done. rewrite !back_one_day.
    destruct (decide (u - d = 0)%Z) as [H0|H0].
    + replace (u * MS_PER_DAY - MS_PER_DAY)%Z
        with ((d - 1) * MS_PER_DAY)%Z by lia.
      rewrite IH by done. lia.
    + rewrite decide_True by lia.
      replace (d * MS_PER_DAY - MS_PER_DAY)%Z
        with ((d - 1) * MS_PER_DAY)%Z by lia.
      rewrite IH by done. lia.
Qed.

(** X24. Where the clock knows no time changes and the dates are whole
    days: if the habit's [true] entries up to the given day, latest first,
    start on that day or the day before and each next one lies one or two
    days before its predecessor, [calculateStreak] counts them all, so a
    single missed day between two entries does not end the streak; if the
    latest entry lies two or more days back, the streak is 0. *)
Theorem calculateStreak_gaps habitId upToDate db u days :
  getTime upToDate = Some (u * MS_PER_DAY)%Z →
  Forall2 (λ e d, getTime (LogEntry.date e) = Some (d * MS_PER_DAY)%Z)
    (streakEntries habitId upToDate db) days →
  (gaps_ok u days →
     calculateStreak getTime setDateBack habitId upToDate db = length days)
  ∧ (∀ d rest, days = d :: rest → (u - d ≠ 0)%Z → (u - d ≠ 1)%Z →
       calculateStreak getTime setDateBack habitId upToDate db = 0%nat).
Proof.
  intros Hup Hall. unfold calculateStreak. rewrite Hup. split.
  - intros Hgaps.
    destruct (streakEntries habitId upToDate db) as [|e entries] eqn:E.
    + by apply Forall2_nil_inv_l in Hall as ->.
    + by rewrite (streak_loop_chain _ _ _ _ Hall Hgaps).
  - intros d rest -> H0 H1.
    destruct (streakEntries habitId upToDate db) as [|e entries] eqn:E;
      [done|].
    apply Forall2_cons_1 in Hall as [He _]. simpl. rewrite He.
    replace (u * MS_PER_DAY - d * MS_PER_DAY)%Z
      with ((u - d) * MS_PER_DAY)%Z by lia.
    rewrite Z.div_mul by done. by rewrite !decide_False.
Qed.
End StreakFacts.

Lemma calculateStreak_gaps_witness :
  (∀ t, (λ t, t - MS_PER_DAY)%Z t = (t - MS_PER_DAY)%Z)
  ∧ sample_getTime "2026-01-09" = Some (20462 * MS_PER_DAY)%Z
  ∧ LogEntry.date <$> streakEntries "h1" "2026-01-09" sample_streak_db
    = ["2026-01-09"; "2026-01-07"; "2026-01-05"]
  ∧ gaps_ok 20462 [20462; 20460; 20458]%Z
  ∧ calculateStreak sample_getTime (λ t, t - MS_PER_DAY)%Z "h1" "2026-01-09"
      sample_streak_db = 3%nat.
Proof.
  assert (gaps_ok 20462 [20462; 20460; 20458]%Z) as Hgaps
    by (simpl; lia).
  split; [reflexivity|]. split; [reflexivity|].
  split; [vm_compute; reflexivity|]. split; [exact Hgaps|].
  refine (proj1 (calculateStreak_gaps sample_getTime (λ t, t - MS_PER_DAY)%Z
                   (λ t, eq_refl) "h1" "2026-01-09" sample_streak_db
                   20462 [20462; 20460; 20458]%Z eq_refl _) Hgaps).
  assert (streakEntries "h1" "2026-01-09" sample_streak_db
          = [ sample_entry "e3" "2026-01-09" (VBool true);
              sample_entry "e2" "2026-01-07" (VBool true);
              sample_entry "e1" "2026-01-05" (VBool true) ]) as ->
    by (vm_compute; reflexivity).
  repeat constructor.
Defined.

(* ===================================================================== *)
(** ** Further facts on import and on deleting a category *)
(* ===================================================================== *)

(** X25. What a successful import leaves depends on the snapshot and the
    clock only, not on what the store held: two stores at the same version
    end identical, and importing the same snapshot a second time at the
    same instant changes nothing. *)
Theorem importAllData_forgets now data db1 db2 :
  ¬ missing_table data →
  verno db1 = verno db2 →
  importAllData now data db1 = importAllData now data db2
  ∧ importAllData now data (importAllData now data db1).2
    = importAllData now data db1.
Proof.
  intros Hm Hv.
  assert (∀ a b, verno a = verno b →
            importAllData now data a = importAllData now data b) as Hdep.
  { intros a b Hab. unfold importAllData, clear. rewrite Hab.
    unfold missing_table in Hm.
    destruct (ExportData.categories data), (ExportData.habits data),
      (ExportData.logEntries data), (ExportData.settings data);
      try done; exfalso; apply Hm; auto. }
  split; [by apply Hdep|]. apply Hdep.
  unfold importAllData.
  destruct (ExportData.categories data) as [cs|] eqn:Hcs;
    [|exfalso; apply Hm; unfold missing_table; auto].
  destruct (ExportData.habits data) as [hs|] eqn:Hhs;
    [|exfalso; apply Hm; unfold missing_table; auto].
  destruct (ExportData.logEntries data) as [ls|] eqn:Hls;
    [|exfalso; apply Hm; unfold missing_table; auto].
  destruct (ExportData.settings data) as [ss|] eqn:Hss;
    [|exfalso; apply Hm; unfold missing_table; auto].
  unfold seedDefaultCategories.
  by destruct (get SHUBH_HISAB_ID _), (get ASHUBH_HISAB_ID _).
Qed.

Lemma importAllData_forgets_witness :
  ¬ missing_table sample_v1_snapshot
  ∧ verno sample_full_db = verno freshDB
  ∧ importAllData 200 sample_v1_snapshot sample_full_db
    = importAllData 200 sample_v1_snapshot freshDB.
Proof.
  assert (¬ missing_table sample_v1_snapshot) as Hm
    by (intros [H|[H|[H|H]]]; discriminate H).
  split; [exact Hm|]. split; [reflexivity|].
  apply (proj1 (importAllData_forgets 200 sample_v1_snapshot sample_full_db
                  freshDB Hm eq_refl)).
Defined.

(** X26. Deleting a category that is not fixed, other than the positive
    fixed one, leaves no habit pointing at it: the category is gone, every
    habit that pointed at it now points at [shubh-hisab], every other
    habit is as it was, and no habit is added or removed. This also holds
    for an identifier that names no category. *)
Theorem deleteCategory_no_orphans now id db :
  (∀ c, categories db !! id = Some c → Category.isFixed c = false) →
  id ≠ SHUBH_HISAB_ID →
  (deleteCategory now id db).1 = Ok ()
  ∧ categories (deleteCategory now id db).2 !! id = None
  ∧ dom (habits (deleteCategory now id db).2) = dom (habits db)
  ∧ (∀ k h, habits (deleteCategory now id db).2 !! k = Some h →
            Habit.categoryId h ≠ id)
  ∧ (∀ k h, habits db !! k = Some h → Habit.categoryId h = id →
            habits (deleteCategory now id db).2 !! k
            = Some (Habit.set_categoryId SHUBH_HISAB_ID h))
  ∧ (∀ k h, habits db !! k = Some h → Habit.categoryId h ≠ id →
            habits (deleteCategory now id db).2 !! k = Some h).
Proof.
  intros Hnf Hne.
  destruct (deleteCategory_reassigns now id db Hnf)
    as (db' & -> & Hcat & _ & _ & Hhab). simpl.
  split_and!; [done|by rewrite Hcat, lookup_delete_eq| | | |].
  - apply set_eq. intros k. rewrite !elem_of_dom, Hhab.
    by rewrite fmap_is_Some.
  - intros k h Hk. rewrite Hhab in Hk.
    destruct (habits db !! k) as [h0|]; [|done]. simpl in Hk.
    injection Hk as <-. destruct (decide (Habit.categoryId h0 = id)); [|done].
    simpl. congruence.
  - intros k h Hk Hc. rewrite Hhab, Hk. simpl. by rewrite decide_True.
  - intros k h Hk Hc. rewrite Hhab, Hk. simpl. by rewrite decide_False.
Qed.

Lemma deleteCategory_no_orphans_witness :
  (∀ c, categories sample_user_category_db !! "c1" = Some c →
        Category.isFixed c = false)
  ∧ "c1" ≠ SHUBH_HISAB_ID
  ∧ Habit.categoryId <$> (habits sample_user_category_db !! "h1") = Some "c1"
  ∧ Habit.categoryId
      <$> (habits (deleteCategory 9 "c1" sample_user_category_db).2 !! "h1")
    = Some SHUBH_HISAB_ID.
Proof.
  assert (∀ c, categories sample_user_category_db !! "c1" = Some c →
               Category.isFixed c = false) as Hnf
    by (intros c Hc; vm_compute in Hc; by injection Hc as <-).
  assert ("c1" ≠ SHUBH_HISAB_ID) as Hne by done.
  split; [exact Hnf|]. split; [exact Hne|]. split; [vm_compute; reflexivity|].
  destruct (deleteCategory_no_orphans 9 "c1" sample_user_category_db Hnf Hne)
    as (_ & _ & _ & _ & Hmoved & _).
  erewrite Hmoved; [reflexivity|vm_compute; reflexivity|reflexivity].
Defined.

(* ===================================================================== *)
(** ** The manage view *)
(* ===================================================================== *)

Lemma foldl_group_push_lookup l g k :
  foldl group_push g l !! k
  = match g !! k, filter (λ h, groupKey h = k) l with
    | None, [] => None
    | og, fl => Some (default [] og ++ fl)%list
    end.
Proof.
  revert g. induction l as [|a l IH]; intros g.
  - simpl. destruct (g !! k) as [x|]; [|done]. simpl. by rewrite app_nil_r.
  - simpl. rewrite IH. clear IH. rewrite filter_cons.
    assert (group_push g a !! k
            = if decide (groupKey a = k)
              then Some (default [] (g !! k) ++ [a])%list
              else g !! k) as ->.
    { unfold group_push. destruct (decide (groupKey a = k)) as [->|Hne].
      - rewrite lookup_insert_eq. f_equal.
        destruct (decide (is_Some (g !! k))) as [Hk|Hk]; [done|].
        rewrite lookup_insert_eq. apply eq_None_not_Some in Hk.
        by rewrite Hk.
      - rewrite lookup_insert_ne by done.
        destruct (decide (is_Some (g !! groupKey a))); [done|].
        by rewrite lookup_insert_ne. }
    destruct (decide (groupKey a = k)) as [Hk|Hk].
    + simpl. rewrite <-app_assoc. simpl. by destruct (g !! k).
    + done.
Qed.

Lemma habitsByCategory_get db k :
  default [] (habitsByCategory db !! k)
  = filter (λ h, groupKey h = k) (useHabits None db).
Proof.
  unfold habitsByCategory, useHabits. simpl.
  rewrite foldl_group_push_lookup, lookup_empty.
  by destruct (filter _ _).
Qed.

(** X27. The manage view lists every category once, in display order, and
    under each one exactly the active habits whose category identifier (or
    [uncategorized] when it is empty) is that category's, in habit display
    order. An active habit whose identifier names no stored category is
    listed under no category. *)
Theorem useCategoriesWithHabits_groups db :
  fst <$> useCategoriesWithHabits db = useCategories db
  ∧ (∀ c hs, (c, hs) ∈ useCategoriesWithHabits db →
       hs = filter (λ h, groupKey h = Category.id c) (useHabits None db))
  ∧ (∀ h, (∀ k c, categories db !! k = Some c →
                  Category.id c ≠ groupKey h) →
       ∀ c hs, (c, hs) ∈ useCategoriesWithHabits db → h ∉ hs).
Proof.
  assert (∀ c hs, (c, hs) ∈ useCategoriesWithHabits db →
            c ∈ useCategories db
            ∧ hs = filter (λ h, groupKey h = Category.id c)
                     (useHabits None db)) as Hin.
  { intros c hs Hc. unfold useCategoriesWithHabits in Hc.
    apply list_elem_of_fmap in Hc as (c' & Heq & Hc').
    injection Heq as -> ->. split; [done|]. apply habitsByCategory_get. }
  split_and!.
  - unfold useCategoriesWithHabits, useCategories.
    rewrite <-list_fmap_compose. apply list_fmap_id.
  - intros c hs Hc. by apply Hin.
  - intros h Hno c hs Hc Hh. apply Hin in Hc as [Hc ->].
    apply list_elem_of_filter in Hh as [Hkey _].
    unfold useCategories in Hc. apply elem_of_orderBy in Hc as [k Hk].
    by apply (Hno k c).
Qed.


Lemma useCategoriesWithHabits_groups_witness :
  ∃ h, habits sample_uncategorized_db !! "h2" = Some h
    ∧ h ∈ useHabits None sample_uncategorized_db
    ∧ (∀ k c, categories sample_uncategorized_db !! k = Some c →
              Category.id c ≠ groupKey h)
    ∧ ∀ c hs, (c, hs) ∈ useCategoriesWithHabits sample_uncategorized_db →
              h ∉ hs.
Proof.
  destruct (habits sample_uncategorized_db !! "h2") as [h|] eqn:Hh;
    [|vm_compute in Hh; discriminate Hh].
  exists h.
  assert (∀ k c, categories sample_uncategorized_db !! k = Some c →
                 Category.id c ≠ groupKey h) as Hno.
  { intros k c Hc. apply elem_of_map_to_list in Hc.
    vm_compute in Hh. injection Hh as <-.
    vm_compute in Hc.
    repeat (apply elem_of_cons in Hc as [Hc|Hc];
            [injection Hc as -> ->; vm_compute; discriminate|]).
    by apply elem_of_nil in Hc. }
  split; [done|]. split.
  - apply elem_of_useHabits. split; [by exists "h2"|].
    vm_compute in Hh. injection Hh as <-. split; [reflexivity|done].
  - split; [exact Hno|].
    exact (proj2 (proj2 (useCategoriesWithHabits_groups
                           sample_uncategorized_db)) h Hno).
Defined.
